(** * Batching.cpp: batch-dimension bookkeeping of the vectorizing map

    A shallow embedding of [aten/src/ATen/native/Batching.cpp] and of the
    collaborators it calls, followed by the properties proved about it.

    Conventions.
    - [int64_t] values (levels, dimension indices, sizes) are read as [Z].
      The source performs one subtraction on them, the index remapping of
      [remove_existing_batch_dim]; on tag sets of the data model its result
      stays between 0 and the rank (shown below), far from the bounds of
      the machine type.
    - A C++ call either returns a value or does not: [TORCH_INTERNAL_ASSERT]
      failures, the range error of [maybe_wrap_dim], the shape errors of the
      array runtime and behaviour C++ leaves undefined are the four [error]s
      of a small error monad.
    - [std::vector]/[SmallVector] values are lists; [push_back] appends at
      the end. *)

From Stdlib Require Import ZArith List Bool Lia Permutation.
Import ListNotations.
Open Scope Z_scope.

(** ** Outcomes of a call *)

Inductive error : Type :=
| InternalAssert   (* TORCH_INTERNAL_ASSERT failed *)
| IndexError       (* maybe_wrap_dim: dimension out of range *)
| RuntimeError     (* the array runtime rejected a shape or a permutation *)
| Undefined.       (* no check in the source: uninitialised read, iterator out of range *)

Inductive result (A : Type) : Type :=
| Ok (a : A)
| Err (e : error).
Arguments Ok {A} a.
Arguments Err {A} e.

Definition bind {A B : Type} (c : result A) (k : A -> result B) : result B :=
  match c with
  | Ok a => k a
  | Err e => Err e
  end.

Notation "x <- c ;; k" := (bind c (fun x => k))
  (at level 61, c at next level, right associativity).
Notation "' pat <- c ;; k" := (bind c (fun x => match x with pat => k end))
  (at level 61, pat pattern, c at next level, right associativity).

Fixpoint mapM {A B : Type} (f : A -> result B) (l : list A) : result (list B) :=
  match l with
  | [] => Ok []
  | a :: l' => b <- f a ;; bs <- mapM f l' ;; Ok (b :: bs)
  end.

(** ** Vectors *)

Definition push_back {A : Type} (v : list A) (x : A) : list A := v ++ [x].

(** [v.insert(v.begin() + pos, x)]; an iterator outside [begin, end] is
    undefined behaviour. *)
Definition vec_insert {A : Type} (v : list A) (pos : Z) (x : A) : result (list A) :=
  if (0 <=? pos) && (pos <=? Z.of_nat (length v))
  then Ok (firstn (Z.to_nat pos) v ++ x :: skipn (Z.to_nat pos) v)
  else Err Undefined.

Definition count_if {A : Type} (f : A -> bool) (v : list A) : Z :=
  Z.of_nat (length (filter f v)).

(** [0, 1, ..., n-1] as [int64_t] values: the range of a counting loop. *)
Definition iota (n : nat) : list Z := map Z.of_nat (seq 0 n).

Definition nthZ (l : list Z) (i : Z) : Z := nth (Z.to_nat i) l 0.

Fixpoint distinct (l : list Z) : bool :=
  match l with
  | [] => true
  | x :: l' => negb (existsb (Z.eqb x) l') && distinct l'
  end.

(** ** Tag entries: BatchDim(level, dim) *)

Module BatchDim.
Record t : Type := mk { level : Z; dim : Z }.
End BatchDim.

Definition BatchDims : Type := list BatchDim.t.

(** ** Arrays

    A regular tensor is a strided view of a storage; a batched tensor wraps
    a regular tensor (its payload, [value()]) and a tag set ([bdims()]). *)

Record TensorImpl : Type := mkImpl {
  storage : list Z;          (* the cells; their values are opaque here *)
  storage_offset : Z;
  sizes_ : list Z;
  strides_ : list Z
}.

Inductive Tensor : Type :=
| Regular (impl : TensorImpl)
| Batched (value : TensorImpl) (bdims : BatchDims).

(** Modelled from the spec: [maybeGetBatched] of BatchedTensorImpl.h, the
    tag metadata of an array when it is tagged. *)
Definition maybeGetBatched (self : Tensor) : option (TensorImpl * BatchDims) :=
  match self with
  | Regular _ => None
  | Batched value bdims => Some (value, bdims)
  end.

(** Modelled from the spec: [makeBatched] of BatchedTensorImpl.h, which
    rewraps a payload with a tag set (no data movement). *)
Definition makeBatched (value : TensorImpl) (bdims : BatchDims) : Tensor :=
  Batched value bdims.

(** Modelled from the spec: [addBatchDim] of BatchedTensorImpl.h.  A pure
    metadata operation: the entry is appended to the existing tag set, or a
    one-entry set is created for an untagged array; nothing is validated. *)
Definition addBatchDim (self : Tensor) (level dim : Z) : Tensor :=
  match self with
  | Regular impl => Batched impl [BatchDim.mk level dim]
  | Batched value bdims =>
      makeBatched value (push_back bdims (BatchDim.mk level dim))
  end.

(** Modelled from the spec: [maybe_wrap_dim] of WrapDimUtils.h, the
    dimension-normalization utility.  It maps a possibly negative index into
    [0, rank) and fails with a range error otherwise. *)
Definition maybe_wrap_dim (dim dim_post_expr : Z) : result Z :=
  if (- dim_post_expr <=? dim) && (dim <? dim_post_expr)
  then Ok (if dim <? 0 then dim + dim_post_expr else dim)
  else Err IndexError.

(** ** Shape queries and the two primitives of the array runtime *)

Module Tensor.

(** Physical positions that carry no tag, in increasing order: the
    logical dimensions of a tagged array. *)
Definition is_bdim (bdims : BatchDims) (q : Z) : bool :=
  existsb (fun b => BatchDim.dim b =? q) bdims.

Definition logical_dims (bdims : BatchDims) (physical_rank : nat) : list Z :=
  filter (fun q => negb (is_bdim bdims q)) (iota physical_rank).

(** Modelled from the spec: [Tensor::sizes], the logical shape.  Tag
    dimensions are invisible to logical indexing. *)
Definition sizes (self : Tensor) : list Z :=
  match self with
  | Regular impl => sizes_ impl
  | Batched value bdims =>
      map (nthZ (sizes_ value)) (logical_dims bdims (length (sizes_ value)))
  end.

(** Modelled from the spec: [Tensor::dim], the logical rank. *)
Definition dim (self : Tensor) : Z := Z.of_nat (length (sizes self)).

(** Modelled from the spec: the generic permute primitive on a regular
    tensor.  Dimension [i] of the result is dimension [dims[i]] of the
    input; [dims] must name every dimension once. *)
Definition permute_impl (p : TensorImpl) (dims : list Z) : result TensorImpl :=
  let n := length (sizes_ p) in
  if Nat.eqb (length dims) n then
    wrapped <- mapM (fun d => maybe_wrap_dim d (Z.of_nat n)) dims ;;
    if distinct wrapped then
      Ok (mkImpl (storage p) (storage_offset p)
                 (map (nthZ (sizes_ p)) wrapped)
                 (map (nthZ (strides_ p)) wrapped))
    else Err RuntimeError
  else Err RuntimeError.

(** Modelled from the spec: broadcast-to-shape on (sizes, strides), with
    stride-0 semantics.  As in every broadcast, the existing dimensions
    are matched against the trailing entries of the target shape: an
    existing dimension keeps its stride when the sizes agree, is
    stretched with stride 0 when its size is 1, and is rejected otherwise;
    target entries beyond the existing rank become new leading dimensions
    of stride 0.  The three lists are given last dimension first. *)
Fixpoint broadcast_rev (rsizes rstrides rtarget : list Z) : result (list (Z * Z)) :=
  match rtarget with
  | [] =>
      match rsizes with
      | [] => Ok []
      | _ :: _ => Err RuntimeError
      end
  | t :: rtarget' =>
      if t <? 0 then Err RuntimeError else
      match rsizes with
      | s :: rsizes' =>
          if s =? t then
            rest <- broadcast_rev rsizes' (tl rstrides) rtarget' ;;
            Ok ((t, hd 0 rstrides) :: rest)
          else if s =? 1 then
            rest <- broadcast_rev rsizes' (tl rstrides) rtarget' ;;
            Ok ((t, 0) :: rest)
          else Err RuntimeError
      | [] =>
          rest <- broadcast_rev [] [] rtarget' ;; Ok ((t, 0) :: rest)
      end
  end.

Definition broadcast (sizes strides target : list Z) : result (list Z * list Z) :=
  geometry <- broadcast_rev (rev sizes) (rev strides) (rev target) ;;
  Ok (rev (map fst geometry), rev (map snd geometry)).

Definition expand_impl (p : TensorImpl) (size : list Z) : result TensorImpl :=
  '(new_sizes, new_strides) <- broadcast (sizes_ p) (strides_ p) size ;;
  Ok (mkImpl (storage p) (storage_offset p) new_sizes new_strides).

(** Modelled from the spec: how a primitive sees a tagged array.  The
    batching rules themselves are outside this core; the model gives a
    primitive the payload with its tag dimensions moved to the front, in
    tag-set order, followed by the logical dimensions in their order.  The
    primitive then acts on the logical dimensions only and the result is
    tagged again, entry [i] at physical dimension [i]. *)
Definition permuteBatchDimsToFront (value : TensorImpl) (bdims : BatchDims)
  : result TensorImpl :=
  permute_impl value
    (map BatchDim.dim bdims ++ logical_dims bdims (length (sizes_ value))).

Fixpoint front_bdims (i : Z) (bdims : BatchDims) : BatchDims :=
  match bdims with
  | [] => []
  | b :: bdims' => BatchDim.mk (BatchDim.level b) i :: front_bdims (i + 1) bdims'
  end.

Definition permute (self : Tensor) (dims : list Z) : result Tensor :=
  match self with
  | Regular impl => p <- permute_impl impl dims ;; Ok (Regular p)
  | Batched value bdims =>
      let k := length bdims in
      physical <- permuteBatchDimsToFront value bdims ;;
      wrapped <- mapM (fun d => maybe_wrap_dim d (dim self)) dims ;;
      p <- permute_impl physical
             (iota k ++ map (fun d => Z.of_nat k + d) wrapped) ;;
      Ok (Batched p (front_bdims 0 bdims))
  end.

Definition expand (self : Tensor) (size : list Z) : result Tensor :=
  match self with
  | Regular impl => p <- expand_impl impl size ;; Ok (Regular p)
  | Batched value bdims =>
      let k := length bdims in
      physical <- permuteBatchDimsToFront value bdims ;;
      '(new_sizes, new_strides) <-
         broadcast (skipn k (sizes_ physical)) (skipn k (strides_ physical)) size ;;
      Ok (Batched (mkImpl (storage physical) (storage_offset physical)
                          (firstn k (sizes_ physical) ++ new_sizes)
                          (firstn k (strides_ physical) ++ new_strides))
                  (front_bdims 0 bdims))
  end.

(** Reading one element of a regular tensor through its strides. *)
Fixpoint linear_index (index strides : list Z) : Z :=
  match index, strides with
  | i :: index', st :: strides' => i * st + linear_index index' strides'
  | _, _ => 0
  end.

Fixpoint in_bounds (index sizes : list Z) : bool :=
  match index, sizes with
  | [], [] => true
  | i :: index', s :: sizes' => (0 <=? i) && (i <? s) && in_bounds index' sizes'
  | _, _ => false
  end.

Definition item (p : TensorImpl) (index : list Z) : option Z :=
  if in_bounds index (sizes_ p)
  then nth_error (storage p)
         (Z.to_nat (storage_offset p + linear_index index (strides_ p)))
  else None.

End Tensor.

(** ** Batching.cpp *)

(** Adds a batch dimension to the tensor [self] out-of-place. *)
Definition _add_batch_dim (self : Tensor) (batch_dim level : Z) : Tensor :=
  addBatchDim self level batch_dim.

Definition has_level (self : Tensor) (level : Z) : bool :=
  match maybeGetBatched self with
  | None => false
  | Some (_, bdims) => existsb (fun bdim => BatchDim.level bdim =? level) bdims
  end.

(** The loop of [remove_existing_batch_dim]: the state is [new_bdims] and
    [newly_exposed_physical_dim], which the source declares without an
    initial value ([None] until an entry of the level is met). *)
Definition remove_loop_body (level : Z) (st : BatchDims * option Z) (bdim : BatchDim.t)
  : BatchDims * option Z :=
  let '(new_bdims, newly_exposed_physical_dim) := st in
  if BatchDim.level bdim =? level
  then (new_bdims, Some (BatchDim.dim bdim))
  else (push_back new_bdims bdim, newly_exposed_physical_dim).

(** Returns a tensor with the batch dim of level [level] turned into a
    regular dimension, and the logical index of that dimension in the
    returned tensor.  When the loop meets no entry of the level, the source
    goes on to read [newly_exposed_physical_dim] uninitialised: [Undefined].
    (An empty tag set, which no batched tensor of the data model carries,
    takes that path too.) *)
Definition remove_existing_batch_dim (self : Tensor) (level : Z) : result (Tensor * Z) :=
  match maybeGetBatched self with
  | None => Err InternalAssert
  | Some (value, bdims) =>
      match bdims with
      | [bdim0] =>
          if BatchDim.level bdim0 =? level
          then Ok (Regular value, BatchDim.dim bdim0)
          else Err InternalAssert
      | _ =>
          let '(new_bdims, exposed) :=
            fold_left (remove_loop_body level) bdims ([], None) in
          match exposed with
          | None => Err Undefined
          | Some newly_exposed_physical_dim =>
              let num_batch_dims_before_newly_exposed_physical_dim :=
                count_if (fun bdim => BatchDim.dim bdim <? newly_exposed_physical_dim)
                         new_bdims in
              let newly_exposed_logical_dim :=
                newly_exposed_physical_dim
                - num_batch_dims_before_newly_exposed_physical_dim in
              let result_tensor := makeBatched value new_bdims in
              Ok (result_tensor, newly_exposed_logical_dim)
          end
      end
  end.

(** The loop of [movedim]: every dimension but [src], in increasing order. *)
Definition movedim_loop (logical_dim : Z) (src : Z) : list Z :=
  fold_left (fun permutation d => if d =? src then permutation else push_back permutation d)
            (iota (Z.to_nat logical_dim)) [].

(** Poor man's version of np.moveaxis. *)
Definition movedim (self : Tensor) (src dst : Z) : result Tensor :=
  let logical_dim := Tensor.dim self in
  src <- maybe_wrap_dim src logical_dim ;;
  dst <- maybe_wrap_dim dst logical_dim ;;
  if src =? dst then Ok self
  else
    permutation <- vec_insert (movedim_loop logical_dim src) dst src ;;
    Tensor.permute self permutation.

(** Removes the batch dim of level [level] from [self]; when [self] has no
    such level the dimension is created by broadcasting.  [out_dim] controls
    where the batch dimension is put in the output tensor. *)
Definition _remove_batch_dim (self : Tensor) (level batch_size out_dim : Z)
  : result Tensor :=
  if negb (has_level self level) then
    let self_sizes := Tensor.sizes self in
    expanded_sizes <- vec_insert self_sizes out_dim batch_size ;;
    Tensor.expand self expanded_sizes
  else
    '(self_without_bdim, newly_exposed_logical_dim) <-
       remove_existing_batch_dim self level ;;
    movedim self_without_bdim newly_exposed_logical_dim out_dim.

(** ** Vocabulary of the specification *)

(** Inserting [x] at position [pos] of a sequence. *)
Definition insert_at {A : Type} (pos : nat) (x : A) (l : list A) : list A :=
  firstn pos l ++ x :: skipn pos l.

(** The order [movedim] is specified to apply: all dimensions except [src]
    in their original relative order, with [src] inserted at position [dst]
    of that reduced sequence. *)
Definition moved_order (rank : nat) (src dst : Z) : list Z :=
  insert_at (Z.to_nat dst) src (filter (fun d => negb (d =? src)) (iota rank)).

(** Taking the entry at position [pos] out of a sequence, and the shape a
    dimension move is meant to give: the entry at [src] taken out and put
    back at position [dst]. *)
Definition remove_at {A : Type} (pos : nat) (l : list A) : list A :=
  firstn pos l ++ skipn (S pos) l.

Definition move_dim (l : list Z) (src dst : nat) : list Z :=
  insert_at dst (nth src l 0) (remove_at src l).

(** ** The data-model invariants of a tag set *)

Definition unique_levels (bdims : BatchDims) : Prop :=
  NoDup (map BatchDim.level bdims).

Definition unique_dims (bdims : BatchDims) : Prop :=
  NoDup (map BatchDim.dim bdims).

Definition dims_in_range (bdims : BatchDims) (physical_rank : nat) : Prop :=
  Forall (fun b => 0 <= BatchDim.dim b < Z.of_nat physical_rank) bdims.

(** A tagged array of the data model: the physical dimensions of its
    entries are pairwise distinct positions of the payload.  A plain array
    carries no constraint. *)
Definition well_formed (self : Tensor) : Prop :=
  match self with
  | Regular _ => True
  | Batched value bdims =>
      unique_dims bdims /\ dims_in_range bdims (length (sizes_ value))
  end.

(** The entries that survive the removal of a level, as the spec words it. *)
Definition survivors (level : Z) (bdims : BatchDims) : BatchDims :=
  filter (fun b => negb (BatchDim.level b =? level)) bdims.

(** The physical dimension remembered by the loop: that of the last entry
    of the level, if any. *)
Fixpoint exposed_dim (level : Z) (bdims : BatchDims) (e : option Z) : option Z :=
  match bdims with
  | [] => e
  | b :: bdims' =>
      exposed_dim level bdims'
        (if BatchDim.level b =? level then Some (BatchDim.dim b) else e)
  end.

(** A contiguous 2x3x5x7 payload used in the examples. *)
Definition payload4 : TensorImpl := mkImpl (iota 210) 0 [2; 3; 5; 7] [105; 35; 7; 1].

(** ** The loop of [remove_existing_batch_dim] *)

Section RemoveLoop.

Variable level : Z.

Lemma remove_loop_spec (bdims acc : BatchDims) (e : option Z) :
  fold_left (remove_loop_body level) bdims (acc, e)
  = (acc ++ survivors level bdims, exposed_dim level bdims e).
Proof.
  revert acc e.
  induction bdims as [|b bdims IH]; intros acc e; simpl.
  - now rewrite app_nil_r.
  - destruct (BatchDim.level b =? level); simpl.
    + apply IH.
    + rewrite IH. unfold push_back. now rewrite <- app_assoc.
Qed.

Lemma exposed_dim_absent (bdims : BatchDims) (e : option Z) :
  existsb (fun b => BatchDim.level b =? level) bdims = false ->
  exposed_dim level bdims e = e.
Proof.
  revert e.
  induction bdims as [|b bdims IH]; intros e H; simpl in *; [reflexivity|].
  apply orb_false_iff in H. destruct H as [Hb Hrest].
  rewrite Hb. now apply IH.
Qed.

Lemma exposed_dim_present (bdims : BatchDims) (e : option Z) :
  existsb (fun b => BatchDim.level b =? level) bdims = true ->
  exists p, exposed_dim level bdims e = Some p.
Proof.
  revert e.
  induction bdims as [|b bdims IH]; intros e H; simpl in *; [discriminate|].
  destruct (BatchDim.level b =? level) eqn:Hb.
  - destruct (existsb (fun b0 => BatchDim.level b0 =? level) bdims) eqn:Hrest.
    + now apply IH.
    + rewrite exposed_dim_absent by assumption. eauto.
  - now apply IH.
Qed.

Lemma exposed_dim_unique (bdims : BatchDims) (e : option Z) (p : Z) :
  unique_levels bdims ->
  In (BatchDim.mk level p) bdims ->
  exposed_dim level bdims e = Some p.
Proof.
  unfold unique_levels. revert e.
  induction bdims as [|b bdims IH]; intros e Hnd Hin; simpl in *; [contradiction|].
  inversion Hnd as [|? ? Hnotin Hnd']; subst.
  destruct Hin as [Heq | Hin].
  - subst b. simpl. rewrite Z.eqb_refl.
    apply exposed_dim_absent.
    apply not_true_is_false. intros Hex.
    apply existsb_exists in Hex. destruct Hex as [b' [Hb' Hlv]].
    apply Z.eqb_eq in Hlv. apply Hnotin. simpl. rewrite <- Hlv.
    now apply in_map.
  - now apply IH.
Qed.

End RemoveLoop.

Lemma has_level_In (value : TensorImpl) (bdims : BatchDims) (level p : Z) :
  In (BatchDim.mk level p) bdims -> has_level (Batched value bdims) level = true.
Proof.
  intros Hin. simpl. apply existsb_exists.
  exists (BatchDim.mk level p). split; [assumption|]. simpl. apply Z.eqb_refl.
Qed.

(** What the multi-entry path returns, in one equation. *)
Lemma remove_existing_batch_dim_multi (value : TensorImpl) (bdims : BatchDims) (level : Z) :
  length bdims <> 1%nat ->
  remove_existing_batch_dim (Batched value bdims) level
  = match exposed_dim level bdims None with
    | None => Err Undefined
    | Some p =>
        Ok (Batched value (survivors level bdims),
            p - count_if (fun b => BatchDim.dim b <? p) (survivors level bdims))
    end.
Proof.
  intros Hlen. unfold remove_existing_batch_dim. simpl maybeGetBatched. cbv iota beta.
  destruct bdims as [|b0 [|b1 rest]]; [ | simpl in Hlen; congruence | ];
    rewrite remove_loop_spec; reflexivity.
Qed.

(** The two paths that do check the precondition. *)
Lemma remove_existing_batch_dim_untagged (impl : TensorImpl) (level : Z) :
  remove_existing_batch_dim (Regular impl) level = Err InternalAssert.
Proof. reflexivity. Qed.


(** ** Remover *)

(** C1.  On a tag set of two or more entries (levels pairwise distinct, as
    the data model has them) that holds the entry (level, p), the logical
    index returned by [remove_existing_batch_dim] is [p - c], where [c]
    counts the surviving entries whose physical dimension is strictly below
    [p]. *)
Theorem remove_existing_batch_dim_index_remapping
    (value : TensorImpl) (bdims : BatchDims) (level p : Z) :
  (2 <= length bdims)%nat ->
  unique_levels bdims ->
  In (BatchDim.mk level p) bdims ->
  exists t,
    remove_existing_batch_dim (Batched value bdims) level
    = Ok (t, p - count_if (fun b => BatchDim.dim b <? p) (survivors level bdims)).
Proof.
  intros Hlen Huniq Hin.
  rewrite remove_existing_batch_dim_multi by lia.
  rewrite (exposed_dim_unique level bdims None p Huniq Hin).
  eauto.
Qed.

(** The example of the spec: entries at physical dims 1 and 3 for levels 0
    and 1; removing level 1 yields logical dim 3 - 1 = 2. *)
Lemma remove_existing_batch_dim_index_remapping_example :
  exists t,
    remove_existing_batch_dim
      (Batched payload4 [BatchDim.mk 0 1; BatchDim.mk 1 3]) 1 = Ok (t, 2).
Proof.
  apply (remove_existing_batch_dim_index_remapping
           payload4 [BatchDim.mk 0 1; BatchDim.mk 1 3] 1 3).
  - simpl. lia.
  - unfold unique_levels. simpl.
    constructor; [simpl; intros [H | []]; discriminate H|].
    constructor; [simpl; tauto|]. constructor.
  - simpl. right. left. reflexivity.
Defined.

(** C8.  On a tag set of two or more entries that holds the level, the
    returned array wraps the very payload of the input, and its tag set is
    the input's with the entries of the level taken out: every other entry
    is kept as it was, in the same order. *)
Theorem remove_existing_batch_dim_frame
    (value : TensorImpl) (bdims : BatchDims) (level : Z) :
  (2 <= length bdims)%nat ->
  has_level (Batched value bdims) level = true ->
  exists new_bdims logical_dim,
    remove_existing_batch_dim (Batched value bdims) level
    = Ok (Batched value new_bdims, logical_dim)
    /\ new_bdims = survivors level bdims
    /\ (forall b, In b new_bdims <-> In b bdims /\ BatchDim.level b <> level).
Proof.
  intros Hlen Hhas. simpl in Hhas.
  destruct (exposed_dim_present level bdims None Hhas) as [p Hp].
  exists (survivors level bdims).
  exists (p - count_if (fun b => BatchDim.dim b <? p) (survivors level bdims)).
  split; [|split].
  - rewrite remove_existing_batch_dim_multi by lia. now rewrite Hp.
  - reflexivity.
  - intros b. unfold survivors. rewrite filter_In.
    rewrite negb_true_iff, Z.eqb_neq. tauto.
Qed.

Lemma remove_existing_batch_dim_frame_example :
  exists new_bdims logical_dim,
    remove_existing_batch_dim
      (Batched payload4 [BatchDim.mk 0 1; BatchDim.mk 1 3; BatchDim.mk 2 0]) 1
    = Ok (Batched payload4 new_bdims, logical_dim)
    /\ new_bdims = [BatchDim.mk 0 1; BatchDim.mk 2 0]
    /\ (forall b, In b new_bdims <->
                  In b [BatchDim.mk 0 1; BatchDim.mk 1 3; BatchDim.mk 2 0]
                  /\ BatchDim.level b <> 1).
Proof.
  apply (remove_existing_batch_dim_frame
           payload4 [BatchDim.mk 0 1; BatchDim.mk 1 3; BatchDim.mk 2 0] 1).
  - simpl. lia.
  - reflexivity.
Defined.

(** C3.  Tagging a plain array with (level, p) and removing that level
    again gives back the plain array itself and the logical index [p]; this
    holds for every [p], in particular for those in [0, rank]. *)
Theorem add_remove_round_trip (impl : TensorImpl) (level p : Z) :
  remove_existing_batch_dim (addBatchDim (Regular impl) level p) level
  = Ok (Regular impl, p)
  /\ remove_existing_batch_dim (_add_batch_dim (Regular impl) p level) level
     = Ok (Regular impl, p).
Proof.
  unfold _add_batch_dim, addBatchDim, remove_existing_batch_dim.
  cbn [maybeGetBatched BatchDim.level BatchDim.dim].
  rewrite Z.eqb_refl. split; reflexivity.
Qed.





(** ** movedim *)

(** C6.  When [src] and [dst] normalize to the same index of the logical
    rank, negative indices included, [movedim] returns its very input. *)
Theorem movedim_identity (self : Tensor) (src dst k : Z) :
  maybe_wrap_dim src (Tensor.dim self) = Ok k ->
  maybe_wrap_dim dst (Tensor.dim self) = Ok k ->
  movedim self src dst = Ok self.
Proof.
  intros Hsrc Hdst. unfold movedim.
  rewrite Hsrc, Hdst. simpl. now rewrite Z.eqb_refl.
Qed.

Lemma movedim_identity_example :
  movedim (Regular payload4) (-1) 3 = Ok (Regular payload4)
  /\ movedim (Batched payload4 [BatchDim.mk 0 1]) 2 2
     = Ok (Batched payload4 [BatchDim.mk 0 1]).
Proof.
  split.
  - apply (movedim_identity (Regular payload4) (-1) 3 3); reflexivity.
  - apply (movedim_identity (Batched payload4 [BatchDim.mk 0 1]) 2 2 2); reflexivity.
Defined.

(** ** Facts on vectors and index ranges *)

Lemma iota_length (n : nat) : length (iota n) = n.
Proof. unfold iota. now rewrite length_map, length_seq. Qed.

Lemma iota_In (n : nat) (z : Z) : In z (iota n) <-> 0 <= z < Z.of_nat n.
Proof.
  unfold iota. rewrite in_map_iff. split.
  - intros [i [Hi Hin]]. apply in_seq in Hin. lia.
  - intros H. exists (Z.to_nat z). split; [lia|]. apply in_seq. lia.
Qed.

Lemma iota_NoDup (n : nat) : NoDup (iota n).
Proof.
  unfold iota. apply Finite.Injective_map_NoDup.
  - intros x y. apply Nat2Z.inj.
  - apply seq_NoDup.
Qed.

Lemma iota_app (a b : nat) :
  iota (a + b) = iota a ++ map (fun d => Z.of_nat a + d) (iota b).
Proof.
  unfold iota. rewrite seq_app, map_app. f_equal.
  rewrite map_map. generalize 0%nat.
  induction b as [|b IH]; intros s; simpl; [reflexivity|].
  f_equal; [lia|]. apply (IH (S s)).
Qed.

Lemma map_nthZ_iota (l : list Z) : map (nthZ l) (iota (length l)) = l.
Proof.
  unfold iota, nthZ. rewrite map_map.
  induction l as [|x l IH]; [reflexivity|].
  simpl length. rewrite <- cons_seq. simpl map. f_equal.
  rewrite <- seq_shift, map_map. rewrite <- IH at 2.
  apply map_ext. intros i. rewrite !Nat2Z.id. reflexivity.
Qed.

Lemma distinct_NoDup (l : list Z) : distinct l = true <-> NoDup l.
Proof.
  induction l as [|x l IH]; simpl.
  - split; [constructor | reflexivity].
  - rewrite andb_true_iff, negb_true_iff, IH, NoDup_cons_iff.
    assert (E : existsb (Z.eqb x) l = false <-> ~ In x l).
    { rewrite <- not_true_iff_false, existsb_exists. split.
      - intros H Hin. apply H. exists x. split; [assumption | apply Z.eqb_refl].
      - intros H [y [Hin Hy]]. apply Z.eqb_eq in Hy. now subst y. }
    now rewrite E.
Qed.

Lemma mapM_wrap_in_range (n : Z) (dims : list Z) :
  Forall (fun d => 0 <= d < n) dims ->
  mapM (fun d => maybe_wrap_dim d n) dims = Ok dims.
Proof.
  induction 1 as [|d dims Hd _ IH]; simpl; [reflexivity|].
  unfold maybe_wrap_dim at 1.
  replace ((- n <=? d) && (d <? n)) with true
    by (symmetry; apply andb_true_iff; split; [apply Z.leb_le | apply Z.ltb_lt]; lia).
  replace (d <? 0) with false by (symmetry; apply Z.ltb_ge; lia).
  simpl. now rewrite IH.
Qed.

Lemma maybe_wrap_dim_range (d n k : Z) :
  maybe_wrap_dim d n = Ok k -> 0 <= k < n.
Proof.
  unfold maybe_wrap_dim.
  destruct ((- n <=? d) && (d <? n)) eqn:H; [|discriminate].
  apply andb_true_iff in H. destruct H as [H1 H2].
  apply Z.leb_le in H1. apply Z.ltb_lt in H2.
  destruct (d <? 0) eqn:Hneg; intros E; inversion E; subst.
  - apply Z.ltb_lt in Hneg. lia.
  - apply Z.ltb_ge in Hneg. lia.
Qed.

Lemma maybe_wrap_dim_fixed (d n : Z) :
  0 <= d < n -> maybe_wrap_dim d n = Ok d.
Proof.
  intros H. unfold maybe_wrap_dim.
  replace ((- n <=? d) && (d <? n)) with true
    by (symmetry; apply andb_true_iff; split; [apply Z.leb_le | apply Z.ltb_lt]; lia).
  now replace (d <? 0) with false by (symmetry; apply Z.ltb_ge; lia).
Qed.

Lemma Permutation_iota_range (n : nat) (dims : list Z) :
  Permutation dims (iota n) ->
  length dims = n
  /\ Forall (fun d => 0 <= d < Z.of_nat n) dims
  /\ NoDup dims.
Proof.
  intros H. split; [|split].
  - rewrite (Permutation_length H). apply iota_length.
  - apply Forall_forall. intros d Hd. apply iota_In.
    now apply (Permutation_in _ H).
  - apply (Permutation_NoDup (Permutation_sym H)), iota_NoDup.
Qed.

(** The permute primitive accepts a permutation of the dimensions. *)
Lemma permute_impl_ok (p : TensorImpl) (dims : list Z) :
  Permutation dims (iota (length (sizes_ p))) ->
  Tensor.permute_impl p dims
  = Ok (mkImpl (storage p) (storage_offset p)
               (map (nthZ (sizes_ p)) dims) (map (nthZ (strides_ p)) dims)).
Proof.
  intros H. apply Permutation_iota_range in H. destruct H as [Hlen [Hrange Hnd]].
  unfold Tensor.permute_impl.
  rewrite Hlen, Nat.eqb_refl, (mapM_wrap_in_range _ _ Hrange). simpl.
  apply distinct_NoDup in Hnd. now rewrite Hnd.
Qed.

(** ** The index sequence built by [movedim] *)

Lemma skip_loop_spec (src : Z) (l acc : list Z) :
  fold_left (fun permutation d => if d =? src then permutation else push_back permutation d)
            l acc
  = acc ++ filter (fun d => negb (d =? src)) l.
Proof.
  revert acc. induction l as [|d l IH]; intros acc; simpl.
  - now rewrite app_nil_r.
  - rewrite IH. destruct (d =? src); simpl; [reflexivity|].
    unfold push_back. now rewrite <- app_assoc.
Qed.

Lemma movedim_loop_spec (logical_dim src : Z) :
  movedim_loop logical_dim src
  = filter (fun d => negb (d =? src)) (iota (Z.to_nat logical_dim)).
Proof. unfold movedim_loop. now rewrite skip_loop_spec. Qed.

Lemma Permutation_pick (src : Z) (l : list Z) :
  NoDup l -> In src l ->
  Permutation (src :: filter (fun d => negb (d =? src)) l) l.
Proof.
  induction l as [|x l IH]; intros Hnd Hin; [contradiction|].
  inversion Hnd as [|? ? Hnotin Hnd']; subst.
  simpl. destruct (x =? src) eqn:Hx.
  - apply Z.eqb_eq in Hx. subst x. simpl. apply perm_skip.
    assert (E : filter (fun d => negb (d =? src)) l = l).
    { apply forallb_filter_id, forallb_forall. intros y Hy.
      apply negb_true_iff, Z.eqb_neq. intros ->. contradiction. }
    now rewrite E.
  - simpl. destruct Hin as [-> | Hin]; [rewrite Z.eqb_refl in Hx; discriminate|].
    etransitivity; [apply perm_swap|]. apply perm_skip. now apply IH.
Qed.

Lemma insert_at_Permutation {A : Type} (pos : nat) (x : A) (l : list A) :
  Permutation (insert_at pos x l) (x :: l).
Proof.
  unfold insert_at. symmetry.
  rewrite <- (firstn_skipn pos l) at 1. apply Permutation_middle.
Qed.

Lemma moved_order_Permutation (rank : nat) (src dst : Z) :
  0 <= src < Z.of_nat rank ->
  Permutation (moved_order rank src dst) (iota rank).
Proof.
  intros Hsrc. unfold moved_order.
  etransitivity; [apply insert_at_Permutation|].
  apply Permutation_pick; [apply iota_NoDup | now apply iota_In].
Qed.

Lemma vec_insert_ok {A : Type} (v : list A) (pos : Z) (x : A) :
  0 <= pos <= Z.of_nat (length v) ->
  vec_insert v pos x = Ok (insert_at (Z.to_nat pos) x v).
Proof.
  intros H. unfold vec_insert.
  now replace ((0 <=? pos) && (pos <=? Z.of_nat (length v))) with true
    by (symmetry; apply andb_true_iff; split; apply Z.leb_le; lia).
Qed.

Lemma skip_src_length (rank : nat) (src : Z) :
  0 <= src < Z.of_nat rank ->
  S (length (filter (fun d => negb (d =? src)) (iota rank))) = rank.
Proof.
  intros Hsrc.
  change (length (src :: filter (fun d => negb (d =? src)) (iota rank)) = rank).
  rewrite (Permutation_length
             (Permutation_pick src (iota rank) (iota_NoDup rank)
                (proj2 (iota_In rank src) Hsrc))).
  apply iota_length.
Qed.

(** [movedim] with distinct normalized indices hands the permute primitive
    the sequence the spec describes. *)
Lemma movedim_permute (self : Tensor) (src dst s d : Z) :
  maybe_wrap_dim src (Tensor.dim self) = Ok s ->
  maybe_wrap_dim dst (Tensor.dim self) = Ok d ->
  s <> d ->
  vec_insert (movedim_loop (Tensor.dim self) s) d s
  = Ok (moved_order (length (Tensor.sizes self)) s d)
  /\ movedim self src dst
     = Tensor.permute self (moved_order (length (Tensor.sizes self)) s d).
Proof.
  intros Hsrc Hdst Hne.
  pose proof (maybe_wrap_dim_range _ _ _ Hsrc) as Rs.
  pose proof (maybe_wrap_dim_range _ _ _ Hdst) as Rd.
  unfold Tensor.dim in Rs, Rd.
  assert (Hins : vec_insert (movedim_loop (Tensor.dim self) s) d s
                 = Ok (moved_order (length (Tensor.sizes self)) s d)).
  { rewrite movedim_loop_spec. unfold Tensor.dim. rewrite Nat2Z.id.
    rewrite vec_insert_ok; [reflexivity|].
    pose proof (skip_src_length (length (Tensor.sizes self)) s Rs). lia. }
  split; [exact Hins|].
  unfold movedim. rewrite Hsrc, Hdst. simpl.
  apply Z.eqb_neq in Hne. rewrite Hne, Hins. reflexivity.
Qed.

(** ** Primitives on tagged arrays *)

Lemma filter_split_Permutation {A : Type} (f : A -> bool) (l : list A) :
  Permutation (filter f l ++ filter (fun a => negb (f a)) l) l.
Proof.
  induction l as [|a l IH]; simpl; [constructor|].
  destruct (f a); simpl.
  - now apply perm_skip.
  - etransitivity; [symmetry; apply Permutation_middle|]. now apply perm_skip.
Qed.

Lemma filter_none {A : Type} (f : A -> bool) (l : list A) :
  (forall a, In a l -> f a = false) -> filter f l = [].
Proof.
  induction l as [|a l IH]; intros H; simpl; [reflexivity|].
  rewrite (H a (or_introl eq_refl)). apply IH.
  intros a' Ha'. apply H. now right.
Qed.

Lemma is_bdim_In (bdims : BatchDims) (q : Z) :
  Tensor.is_bdim bdims q = true <-> In q (map BatchDim.dim bdims).
Proof.
  unfold Tensor.is_bdim. rewrite existsb_exists, in_map_iff.
  split; intros [b [H1 H2]]; exists b.
  - apply Z.eqb_eq in H2. tauto.
  - split; [assumption|]. now apply Z.eqb_eq.
Qed.

Lemma bdims_front_Permutation (bdims : BatchDims) (n : nat) :
  unique_dims bdims -> dims_in_range bdims n ->
  Permutation (map BatchDim.dim bdims ++ Tensor.logical_dims bdims n) (iota n).
Proof.
  intros Hnd Hrange. unfold Tensor.logical_dims.
  etransitivity; [|apply (filter_split_Permutation (Tensor.is_bdim bdims))].
  apply Permutation_app_tail.
  apply NoDup_Permutation.
  - exact Hnd.
  - apply NoDup_filter, iota_NoDup.
  - intros q. rewrite filter_In, is_bdim_In, iota_In. split; [|tauto].
    intros Hq. split; [|assumption].
    apply in_map_iff in Hq. destruct Hq as [b [<- Hb]].
    unfold dims_in_range in Hrange. rewrite Forall_forall in Hrange.
    exact (Hrange b Hb).
Qed.

Lemma logical_dims_length (bdims : BatchDims) (n : nat) :
  unique_dims bdims -> dims_in_range bdims n ->
  (length bdims + length (Tensor.logical_dims bdims n) = n)%nat.
Proof.
  intros Hnd Hrange.
  pose proof (Permutation_length (bdims_front_Permutation bdims n Hnd Hrange)) as H.
  now rewrite length_app, length_map, iota_length in H.
Qed.

Lemma front_bdims_dims (i : Z) (bdims : BatchDims) :
  map BatchDim.dim (Tensor.front_bdims i bdims)
  = map (fun j => i + j) (iota (length bdims)).
Proof.
  revert i. induction bdims as [|b bdims IH]; intros i; [reflexivity|].
  change (length (b :: bdims)) with (1 + length bdims)%nat.
  rewrite iota_app, map_app, map_map.
  change (Tensor.front_bdims i (b :: bdims))
    with (BatchDim.mk (BatchDim.level b) i :: Tensor.front_bdims (i + 1) bdims).
  change (iota 1) with [0].
  cbn [map app BatchDim.dim]. f_equal; [lia|].
  rewrite IH. apply map_ext. intros j. lia.
Qed.

Lemma front_bdims_is_bdim (bdims : BatchDims) (q : Z) :
  Tensor.is_bdim (Tensor.front_bdims 0 bdims) q = true
  <-> 0 <= q < Z.of_nat (length bdims).
Proof.
  rewrite is_bdim_In, front_bdims_dims, in_map_iff. split.
  - intros [j [<- Hj]]. apply iota_In in Hj. lia.
  - intros H. exists q. split; [lia | now apply iota_In].
Qed.

Lemma front_bdims_logical_dims (bdims : BatchDims) (m : nat) :
  Tensor.logical_dims (Tensor.front_bdims 0 bdims) (length bdims + m)
  = map (fun d => Z.of_nat (length bdims) + d) (iota m).
Proof.
  unfold Tensor.logical_dims. rewrite iota_app, filter_app.
  assert (E1 : filter (fun q => negb (Tensor.is_bdim (Tensor.front_bdims 0 bdims) q))
                      (iota (length bdims)) = []).
  { apply filter_none. intros q Hq.
    apply iota_In in Hq. apply negb_false_iff.
    now apply front_bdims_is_bdim. }
  rewrite E1. simpl.
  apply forallb_filter_id, forallb_forall. intros q Hq.
  apply in_map_iff in Hq. destruct Hq as [d [<- Hd]]. apply iota_In in Hd.
  apply negb_true_iff, not_true_iff_false. intros H.
  apply front_bdims_is_bdim in H. lia.
Qed.

Lemma nthZ_app_shift (A B : list Z) (d : Z) :
  0 <= d -> nthZ (A ++ B) (Z.of_nat (length A) + d) = nthZ B d.
Proof.
  intros Hd. unfold nthZ.
  replace (Z.to_nat (Z.of_nat (length A) + d)) with (length A + Z.to_nat d)%nat by lia.
  apply app_nth2_plus.
Qed.

(** The logical shape of an array whose tags sit on the leading [k]
    physical dimensions is what follows them. *)
Lemma front_tagged_sizes (p : TensorImpl) (bdims : BatchDims) (A B : list Z) :
  sizes_ p = A ++ B -> length A = length bdims ->
  Tensor.sizes (Batched p (Tensor.front_bdims 0 bdims)) = B.
Proof.
  intros Hp HA. simpl. rewrite Hp, length_app, HA, front_bdims_logical_dims.
  rewrite map_map. rewrite <- (map_nthZ_iota B) at 2.
  apply map_ext_in. intros d Hd. apply iota_In in Hd.
  rewrite <- HA. apply nthZ_app_shift. lia.
Qed.

Lemma permuteBatchDimsToFront_ok (value : TensorImpl) (bdims : BatchDims) :
  well_formed (Batched value bdims) ->
  Tensor.permuteBatchDimsToFront value bdims
  = Ok (mkImpl (storage value) (storage_offset value)
          (map (nthZ (sizes_ value)) (map BatchDim.dim bdims)
           ++ Tensor.sizes (Batched value bdims))
          (map (nthZ (strides_ value))
             (map BatchDim.dim bdims
              ++ Tensor.logical_dims bdims (length (sizes_ value))))).
Proof.
  intros [Hnd Hrange]. unfold Tensor.permuteBatchDimsToFront.
  rewrite permute_impl_ok by now apply bdims_front_Permutation.
  now rewrite map_app.
Qed.

(** The permute primitive, on plain and on tagged arrays alike, accepts a
    permutation of the logical dimensions and reorders the logical shape
    by it. *)
Lemma permute_sizes (self : Tensor) (dims : list Z) :
  well_formed self ->
  Permutation dims (iota (length (Tensor.sizes self))) ->
  exists t,
    Tensor.permute self dims = Ok t
    /\ Tensor.sizes t = map (nthZ (Tensor.sizes self)) dims.
Proof.
  intros Hwf Hperm.
  destruct self as [impl | value bdims].
  - simpl in *. rewrite permute_impl_ok by assumption.
    eexists. split; reflexivity.
  - pose proof (Permutation_iota_range _ _ Hperm) as [Hlen [Hrange _]].
    unfold Tensor.permute.
    rewrite (permuteBatchDimsToFront_ok value bdims Hwf).
    cbn [bind]. unfold Tensor.dim.
    rewrite (mapM_wrap_in_range _ _ Hrange). cbn [bind].
    set (logical := Tensor.sizes (Batched value bdims)) in *.
    set (front := map (nthZ (sizes_ value)) (map BatchDim.dim bdims)).
    assert (Hfront : length front = length bdims)
      by (unfold front; now rewrite !length_map).
    rewrite permute_impl_ok.
    2:{ cbn [sizes_]. rewrite length_app, Hfront, iota_app.
        apply Permutation_app_head, Permutation_map, Hperm. }
    cbn [bind sizes_ strides_ storage storage_offset].
    eexists. split; [reflexivity|].
    rewrite map_app.
    erewrite front_tagged_sizes;
      [ | cbn [sizes_]; reflexivity | now rewrite length_map, iota_length ].
    rewrite map_map. apply map_ext_in. intros d Hd.
    rewrite Forall_forall in Hrange. specialize (Hrange d Hd).
    rewrite <- Hfront. apply nthZ_app_shift. lia.
Qed.

(** C10.  For an array of the data model and [src], [dst] that normalize
    to distinct indices of the logical rank [r], the sequence [movedim]
    builds and passes to the permute primitive has length [r] and holds
    each of 0, ..., r-1 once; [movedim] then returns an array of the same
    rank whose dimension sizes are those of the input, rearranged. *)
Theorem movedim_permutation (self : Tensor) (src dst s d : Z) :
  well_formed self ->
  maybe_wrap_dim src (Tensor.dim self) = Ok s ->
  maybe_wrap_dim dst (Tensor.dim self) = Ok d ->
  s <> d ->
  exists permutation t,
    vec_insert (movedim_loop (Tensor.dim self) s) d s = Ok permutation
    /\ length permutation = length (Tensor.sizes self)
    /\ NoDup permutation
    /\ (forall i, In i permutation <-> 0 <= i < Tensor.dim self)
    /\ Permutation permutation (iota (length (Tensor.sizes self)))
    /\ movedim self src dst = Tensor.permute self permutation
    /\ movedim self src dst = Ok t
    /\ Tensor.dim t = Tensor.dim self
    /\ Permutation (Tensor.sizes t) (Tensor.sizes self).
Proof.
  intros Hwf Hsrc Hdst Hne.
  destruct (movedim_permute self src dst s d Hsrc Hdst Hne) as [Hins Hmove].
  pose proof (maybe_wrap_dim_range _ _ _ Hsrc) as Rs. unfold Tensor.dim in Rs.
  pose proof (moved_order_Permutation (length (Tensor.sizes self)) s d Rs) as Hperm.
  destruct (permute_sizes self _ Hwf Hperm) as [t [Ht Hsizes]].
  destruct (Permutation_iota_range _ _ Hperm) as [Hlen [_ Hnd]].
  exists (moved_order (length (Tensor.sizes self)) s d), t.
  split; [exact Hins|]. split; [exact Hlen|]. split; [exact Hnd|].
  split; [|split; [exact Hperm|split; [exact Hmove|split; [congruence|split]]]].
  - intros i. unfold Tensor.dim. rewrite <- iota_In. split; intros Hi.
    + now apply (Permutation_in _ Hperm).
    + now apply (Permutation_in _ (Permutation_sym Hperm)).
  - unfold Tensor.dim. now rewrite Hsizes, length_map, Hlen.
  - rewrite Hsizes.
    etransitivity; [apply Permutation_map, Hperm|].
    now rewrite map_nthZ_iota.
Qed.

(** ** Counting the tags below the exposed dimension *)

Lemma NoDup_map_filter {A B : Type} (g : A -> B) (f : A -> bool) (l : list A) :
  NoDup (map g l) -> NoDup (map g (filter f l)).
Proof.
  induction l as [|a l IH]; intros Hnd; simpl in *; [constructor|].
  inversion Hnd as [|? ? Hnotin Hnd']; subst.
  destruct (f a); simpl; [constructor|]; try now apply IH.
  intros Hin. apply Hnotin.
  apply in_map_iff in Hin. destruct Hin as [x [Hx Hin]].
  apply filter_In in Hin. apply in_map_iff. exists x. tauto.
Qed.

Lemma NoDup_map_injective {A B : Type} (g : A -> B) (l : list A) (x y : A) :
  NoDup (map g l) -> In x l -> In y l -> g x = g y -> x = y.
Proof.
  induction l as [|a l IH]; intros Hnd Hx Hy Hg; [contradiction|].
  simpl in Hnd. inversion Hnd as [|? ? Hnotin Hnd']; subst.
  destruct Hx as [-> | Hx], Hy as [-> | Hy]; try reflexivity.
  - exfalso. apply Hnotin. rewrite Hg. now apply in_map.
  - exfalso. apply Hnotin. rewrite <- Hg. now apply in_map.
  - now apply IH.
Qed.

Lemma count_if_split {A : Type} (f : A -> bool) (l : list A) :
  (length (filter f l) + length (filter (fun a => negb (f a)) l) = length l)%nat.
Proof.
  rewrite <- length_app. apply Permutation_length, filter_split_Permutation.
Qed.

(** With [k] pairwise distinct tag positions in [0, n), none of them [p],
    the number of untagged positions below [p] is [p - c], and [p] itself
    is one of the [n - k] untagged positions. *)
Lemma exposed_logical_dim_bounds (bdims : BatchDims) (n : nat) (p : Z) :
  unique_dims bdims -> dims_in_range bdims n ->
  ~ In p (map BatchDim.dim bdims) ->
  0 <= p < Z.of_nat n ->
  0 <= p - count_if (fun b => BatchDim.dim b <? p) bdims
    <= Z.of_nat n - Z.of_nat (length bdims) - 1.
Proof.
  intros Hnd Hrange Hp Hpn.
  unfold dims_in_range in Hrange. rewrite Forall_forall in Hrange.
  set (below := fun b => BatchDim.dim b <? p).
  assert (Hlo : (length (filter below bdims) <= Z.to_nat p)%nat).
  { rewrite <- (length_map BatchDim.dim), <- (iota_length (Z.to_nat p)).
    apply NoDup_incl_length; [now apply NoDup_map_filter|].
    intros q Hq. apply in_map_iff in Hq. destruct Hq as [b [<- Hb]].
    apply filter_In in Hb. destruct Hb as [Hb Hlt]. apply Z.ltb_lt in Hlt.
    apply iota_In. specialize (Hrange b Hb). lia. }
  assert (Hhi : (length (filter (fun b => negb (below b)) bdims)
                 <= n - 1 - Z.to_nat p)%nat).
  { rewrite <- (length_map BatchDim.dim).
    rewrite <- (iota_length (n - 1 - Z.to_nat p)).
    rewrite <- (length_map (fun d => p + 1 + d) (iota (n - 1 - Z.to_nat p))).
    apply NoDup_incl_length; [now apply NoDup_map_filter|].
    intros q Hq. apply in_map_iff in Hq. destruct Hq as [b [<- Hb]].
    apply filter_In in Hb. destruct Hb as [Hb Hge].
    apply negb_true_iff, Z.ltb_ge in Hge.
    assert (BatchDim.dim b <> p) by (intros E; apply Hp; rewrite <- E; now apply in_map).
    specialize (Hrange b Hb).
    apply in_map_iff. exists (BatchDim.dim b - p - 1). split; [lia|].
    apply iota_In. lia. }
  pose proof (count_if_split below bdims) as Hsplit.
  unfold count_if. lia.
Qed.

Lemma exposed_dim_In (level : Z) (bdims : BatchDims) (p : Z) :
  exposed_dim level bdims None = Some p ->
  exists b, In b bdims /\ BatchDim.level b = level /\ BatchDim.dim b = p.
Proof.
  assert (G : forall e,
             exposed_dim level bdims e = Some p ->
             e = Some p
             \/ exists b, In b bdims /\ BatchDim.level b = level /\ BatchDim.dim b = p).
  { induction bdims as [|b bdims IH]; intros e H; simpl in H; [now left|].
    destruct (IH _ H) as [He | [b' [Hin Hb']]].
    - destruct (BatchDim.level b =? level) eqn:Hb.
      + right. exists b. apply Z.eqb_eq in Hb. inversion He. simpl. tauto.
      + now left.
    - right. exists b'. simpl. tauto. }
  intros H. destruct (G None H) as [He | Hex]; [discriminate | exact Hex].
Qed.

Lemma survivors_length (level : Z) (bdims : BatchDims) (b : BatchDim.t) :
  unique_levels bdims -> In b bdims -> BatchDim.level b = level ->
  S (length (survivors level bdims)) = length bdims.
Proof.
  unfold unique_levels, survivors.
  induction bdims as [|a bdims IH]; intros Hnd Hin Hb; [contradiction|].
  simpl in Hnd. inversion Hnd as [|? ? Hnotin Hnd']; subst.
  simpl. destruct (BatchDim.level a =? BatchDim.level b) eqn:Ha; simpl.
  - f_equal. f_equal. apply forallb_filter_id, forallb_forall. intros x Hx.
    apply negb_true_iff, Z.eqb_neq. intros E. apply Hnotin.
    apply Z.eqb_eq in Ha. rewrite Ha, <- E. now apply in_map.
  - destruct Hin as [-> | Hin]; [rewrite Z.eqb_refl in Ha; discriminate|].
    f_equal. now apply IH.
Qed.

(** C9.  On a tagged array of the data model (levels pairwise distinct,
    physical dimensions pairwise distinct positions of the payload) that
    holds the level, [remove_existing_batch_dim] returns an array of logical
    rank [r = physical rank - (k - 1)] and a logical index in [0, r-1];
    normalizing that index against the rank of the returned array, as
    [movedim] does in [_remove_batch_dim], succeeds and leaves it as it is. *)
Theorem remove_existing_batch_dim_in_range
    (value : TensorImpl) (bdims : BatchDims) (level : Z) :
  unique_levels bdims ->
  unique_dims bdims ->
  dims_in_range bdims (length (sizes_ value)) ->
  has_level (Batched value bdims) level = true ->
  exists t logical_dim,
    remove_existing_batch_dim (Batched value bdims) level = Ok (t, logical_dim)
    /\ Tensor.dim t
       = Z.of_nat (length (sizes_ value)) - (Z.of_nat (length bdims) - 1)
    /\ 0 <= logical_dim <= Tensor.dim t - 1
    /\ maybe_wrap_dim logical_dim (Tensor.dim t) = Ok logical_dim.
Proof.
  intros Hlv Hnd Hrange Hhas.
  assert (Hlen : length bdims = 1%nat \/ length bdims <> 1%nat) by lia.
  destruct Hlen as [Hone | Hmulti].
  - destruct bdims as [|b0 [|b1 rest]]; try discriminate Hone.
    unfold has_level in Hhas. cbn [maybeGetBatched existsb] in Hhas.
    rewrite orb_false_r in Hhas.
    exists (Regular value), (BatchDim.dim b0).
    inversion Hrange as [|? ? Hb0 _]; subst.
    unfold remove_existing_batch_dim. cbn [maybeGetBatched]. rewrite Hhas.
    assert (Hdim : Tensor.dim (Regular value)
                   = Z.of_nat (length (sizes_ value)) - (Z.of_nat (length [b0]) - 1))
      by (unfold Tensor.dim; simpl; lia).
    split; [reflexivity|]. split; [exact Hdim|].
    split; [|apply maybe_wrap_dim_fixed]; unfold Tensor.dim; simpl; lia.
  - simpl in Hhas.
    destruct (exposed_dim_present level bdims None Hhas) as [p Hp].
    destruct (exposed_dim_In level bdims p Hp) as [b [Hb [Hblv Hbdim]]].
    set (rest := survivors level bdims).
    assert (Hnd' : unique_dims rest) by (now apply NoDup_map_filter).
    assert (Hrange' : dims_in_range rest (length (sizes_ value))).
    { unfold dims_in_range in *. rewrite Forall_forall in *.
      intros x Hx. apply filter_In in Hx. now apply Hrange. }
    assert (Hk : S (length rest) = length bdims)
      by (now apply (survivors_length level bdims b)).
    assert (Hp' : ~ In p (map BatchDim.dim rest)).
    { intros Hin. apply in_map_iff in Hin. destruct Hin as [x [Hx Hin]].
      apply filter_In in Hin. destruct Hin as [Hin Hxlv].
      apply negb_true_iff, Z.eqb_neq in Hxlv. apply Hxlv.
      rewrite (NoDup_map_injective BatchDim.dim bdims x b Hnd Hin Hb); congruence. }
    assert (Hpn : 0 <= p < Z.of_nat (length (sizes_ value))).
    { unfold dims_in_range in Hrange. rewrite Forall_forall in Hrange.
      rewrite <- Hbdim. now apply Hrange. }
    pose proof (exposed_logical_dim_bounds rest _ p Hnd' Hrange' Hp' Hpn) as Hbound.
    pose proof (logical_dims_length rest _ Hnd' Hrange') as Hlog.
    exists (Batched value rest).
    exists (p - count_if (fun b => BatchDim.dim b <? p) rest).
    assert (Hdim : Tensor.dim (Batched value rest)
                   = Z.of_nat (length (sizes_ value)) - (Z.of_nat (length bdims) - 1)).
    { unfold Tensor.dim. simpl. rewrite length_map. lia. }
    split; [|split; [exact Hdim|split; [|apply maybe_wrap_dim_fixed]]].
    + rewrite remove_existing_batch_dim_multi by assumption. now rewrite Hp.
    + lia.
    + lia.
Qed.

(** The example of the source: [2, 3, 5] with tags (lvl 0, dim 1) and
    (lvl 1, dim 2); removing level 1 exposes logical dimension 1 of a
    rank-2 array. *)
Lemma remove_existing_batch_dim_in_range_example :
  exists t logical_dim,
    remove_existing_batch_dim
      (Batched (mkImpl (iota 30) 0 [2; 3; 5] [15; 5; 1])
               [BatchDim.mk 0 1; BatchDim.mk 1 2]) 1
    = Ok (t, logical_dim)
    /\ Tensor.dim t = 3 - (2 - 1)
    /\ 0 <= logical_dim <= Tensor.dim t - 1
    /\ maybe_wrap_dim logical_dim (Tensor.dim t) = Ok logical_dim.
Proof.
  apply (remove_existing_batch_dim_in_range
           (mkImpl (iota 30) 0 [2; 3; 5] [15; 5; 1])
           [BatchDim.mk 0 1; BatchDim.mk 1 2] 1).
  - unfold unique_levels. simpl.
    constructor; [simpl; intros [H | []]; discriminate H|].
    constructor; [simpl; tauto|]. constructor.
  - unfold unique_dims. simpl.
    constructor; [simpl; intros [H | []]; discriminate H|].
    constructor; [simpl; tauto|]. constructor.
  - unfold dims_in_range. simpl. repeat constructor; simpl; lia.
  - reflexivity.
Defined.

Lemma movedim_permutation_example :
  exists permutation t,
    vec_insert (movedim_loop (Tensor.dim (Regular payload4)) 3) 0 3 = Ok permutation
    /\ length permutation = length (Tensor.sizes (Regular payload4))
    /\ NoDup permutation
    /\ (forall i, In i permutation <-> 0 <= i < Tensor.dim (Regular payload4))
    /\ Permutation permutation (iota (length (Tensor.sizes (Regular payload4))))
    /\ movedim (Regular payload4) (-1) 0 = Tensor.permute (Regular payload4) permutation
    /\ movedim (Regular payload4) (-1) 0 = Ok t
    /\ Tensor.dim t = Tensor.dim (Regular payload4)
    /\ Permutation (Tensor.sizes t) (Tensor.sizes (Regular payload4)).
Proof.
  apply (movedim_permutation (Regular payload4) (-1) 0 3 0).
  - exact I.
  - reflexivity.
  - reflexivity.
  - discriminate.
Defined.

(** C4.  With [src] and [dst] normalized to distinct indices, [movedim]
    applies the permute primitive to the order obtained by listing every
    dimension except [src] in the original relative order and inserting
    [src] at position [dst] of that reduced sequence, so that dimension [i]
    of the result is dimension [moved_order[i]] of the input.  For a shape
    (a, b, c, d): [movedim 0 2] yields (b, c, a, d) and [movedim 3 0] yields
    (d, a, b, c). *)
Theorem movedim_order (self : Tensor) :
  well_formed self ->
  (forall src dst s d,
      maybe_wrap_dim src (Tensor.dim self) = Ok s ->
      maybe_wrap_dim dst (Tensor.dim self) = Ok d ->
      s <> d ->
      exists t,
        movedim self src dst
        = Tensor.permute self (moved_order (length (Tensor.sizes self)) s d)
        /\ movedim self src dst = Ok t
        /\ Tensor.sizes t
           = map (nthZ (Tensor.sizes self))
                 (moved_order (length (Tensor.sizes self)) s d))
  /\ (forall a b c d,
         Tensor.sizes self = [a; b; c; d] ->
         (exists t, movedim self 0 2 = Ok t /\ Tensor.sizes t = [b; c; a; d])
         /\ (exists t, movedim self 3 0 = Ok t /\ Tensor.sizes t = [d; a; b; c])).
Proof.
  intros Hwf.
  assert (General : forall src dst s d,
      maybe_wrap_dim src (Tensor.dim self) = Ok s ->
      maybe_wrap_dim dst (Tensor.dim self) = Ok d ->
      s <> d ->
      exists t,
        movedim self src dst
        = Tensor.permute self (moved_order (length (Tensor.sizes self)) s d)
        /\ movedim self src dst = Ok t
        /\ Tensor.sizes t
           = map (nthZ (Tensor.sizes self))
                 (moved_order (length (Tensor.sizes self)) s d)).
  { intros src dst s d Hsrc Hdst Hne.
    destruct (movedim_permute self src dst s d Hsrc Hdst Hne) as [_ Hmove].
    pose proof (maybe_wrap_dim_range _ _ _ Hsrc) as Rs. unfold Tensor.dim in Rs.
    destruct (permute_sizes self _ Hwf
                (moved_order_Permutation _ s d Rs)) as [t [Ht Hsizes]].
    exists t. split; [exact Hmove|]. split; [congruence | exact Hsizes]. }
  split; [exact General|].
  intros a b c d Hshape. split.
  - destruct (General 0 2 0 2) as [t [_ [Ht Hsizes]]];
      try (unfold Tensor.dim; rewrite Hshape; reflexivity); [discriminate|].
    exists t. split; [exact Ht|]. rewrite Hsizes, Hshape. reflexivity.
  - destruct (General 3 0 3 0) as [t [_ [Ht Hsizes]]];
      try (unfold Tensor.dim; rewrite Hshape; reflexivity); [discriminate|].
    exists t. split; [exact Ht|]. rewrite Hsizes, Hshape. reflexivity.
Qed.

Lemma movedim_order_example :
  (exists t,
      movedim (Batched payload4 [BatchDim.mk 0 1]) (-1) 0
      = Tensor.permute (Batched payload4 [BatchDim.mk 0 1]) [2; 0; 1]
      /\ movedim (Batched payload4 [BatchDim.mk 0 1]) (-1) 0 = Ok t
      /\ Tensor.sizes t = [7; 2; 5])
  /\ (exists t, movedim (Regular payload4) 0 2 = Ok t /\ Tensor.sizes t = [3; 5; 2; 7])
  /\ (exists t, movedim (Regular payload4) 3 0 = Ok t /\ Tensor.sizes t = [7; 2; 3; 5]).
Proof.
  split.
  - apply (proj1 (movedim_order (Batched payload4 [BatchDim.mk 0 1])
                    (conj (NoDup_cons 1 (@in_nil Z 1) (NoDup_nil Z))
                          (Forall_cons (BatchDim.mk 0 1)
                             (conj (Z.le_0_1) (eq_refl : 1 < 4))
                             (Forall_nil _))))
                 (-1) 0 2 0).
    + reflexivity.
    + reflexivity.
    + discriminate.
  - apply (proj2 (movedim_order (Regular payload4) I) 2 3 5 7). reflexivity.
Defined.

(** ** Synthesizer *)

Lemma broadcast_35_375 (strides : list Z) :
  Tensor.broadcast [3; 5] strides [3; 7; 5] = Err RuntimeError.
Proof. reflexivity. Qed.

(** C5 (not met by the code).  For an array of logical shape (3, 5)
    without the level, batch size 7 and [out_dim = 1], the source asks the
    broadcast primitive for the shape (3, 7, 5).  Broadcasting matches the
    existing dimensions against the trailing entries of the target, so the
    size-3 dimension meets the 7 and the call is rejected: no array of
    shape (3, 7, 5) is returned. *)
Theorem synthesize_inner_position_rejected (self : Tensor) (level : Z) :
  well_formed self ->
  Tensor.sizes self = [3; 5] ->
  has_level self level = false ->
  vec_insert (Tensor.sizes self) 1 7 = Ok [3; 7; 5]
  /\ _remove_batch_dim self level 7 1 = Err RuntimeError.
Proof.
  intros Hwf Hshape Hhas. unfold _remove_batch_dim.
  rewrite Hhas, Hshape. split; [reflexivity|].
  simpl negb. cbv iota.
  change (vec_insert [3; 5] 1 7) with (Ok [3; 7; 5]). cbn [bind].
  destruct self as [impl | value bdims].
  - simpl in Hshape. unfold Tensor.expand, Tensor.expand_impl.
    now rewrite Hshape, broadcast_35_375.
  - unfold Tensor.expand.
    rewrite (permuteBatchDimsToFront_ok value bdims Hwf), Hshape.
    cbn [bind sizes_ strides_].
    rewrite skipn_app, !length_map, Nat.sub_diag.
    rewrite skipn_all2 by (now rewrite !length_map).
    cbn [skipn app]. now rewrite broadcast_35_375.
Qed.

Lemma synthesize_inner_position_rejected_example :
  vec_insert (Tensor.sizes (Regular (mkImpl (iota 15) 0 [3; 5] [5; 1]))) 1 7
  = Ok [3; 7; 5]
  /\ _remove_batch_dim (Regular (mkImpl (iota 15) 0 [3; 5] [5; 1])) 0 7 1
     = Err RuntimeError.
Proof.
  apply (synthesize_inner_position_rejected
           (Regular (mkImpl (iota 15) 0 [3; 5] [5; 1])) 0).
  - exact I.
  - reflexivity.
  - reflexivity.
Defined.

(** Where the broadcast is accepted with [out_dim > 0], the synthesized
    dimension is still the leading one: for the 2x3 array [[0,1,2],[3,4,5]],
    batch size 2 and [out_dim = 1], element (0, 1, 0) of the result is
    element (1, 0) of the input, not element (0, 0). *)
Lemma synthesize_inner_position_misplaced :
  exists p,
    _remove_batch_dim (Regular (mkImpl (iota 6) 0 [2; 3] [3; 1])) 0 2 1
    = Ok (Regular p)
    /\ sizes_ p = [2; 2; 3]
    /\ Tensor.item p [0; 1; 0] = Some 3
    /\ Tensor.item (mkImpl (iota 6) 0 [2; 3] [3; 1]) [0; 0] = Some 0.
Proof.
  eexists. split; [reflexivity|]. repeat split.
Qed.

(** At [out_dim = 0] the synthesized dimension is where it was asked for:
    the result has the input's shape behind a new leading dimension of
    stride 0, and each of its slices reads the input's elements. *)
Lemma broadcast_rev_leading (rsizes rstrides : list Z) (batch_size : Z) :
  Forall (fun s => 0 <= s) rsizes ->
  length rstrides = length rsizes ->
  0 <= batch_size ->
  Tensor.broadcast_rev rsizes rstrides (rsizes ++ [batch_size])
  = Ok (combine rsizes rstrides ++ [(batch_size, 0)]).
Proof.
  intros Hpos. revert rstrides.
  induction Hpos as [|s rsizes Hs _ IH]; intros rstrides Hlen Hn; simpl.
  - destruct rstrides; [|discriminate].
    now replace (batch_size <? 0) with false by (symmetry; apply Z.ltb_ge; lia).
  - destruct rstrides as [|st rstrides]; [discriminate|].
    replace (s <? 0) with false by (symmetry; apply Z.ltb_ge; lia).
    rewrite Z.eqb_refl. simpl. rewrite IH by (simpl in Hlen; lia). reflexivity.
Qed.

Lemma combine_fst_snd {A B : Type} (l : list A) (l' : list B) :
  length l' = length l ->
  map fst (combine l l') = l /\ map snd (combine l l') = l'.
Proof.
  revert l'. induction l as [|a l IH]; intros [|b l'] H; simpl in *;
    try discriminate; [split; reflexivity|].
  destruct (IH l') as [H1 H2]; [lia|]. now rewrite H1, H2.
Qed.

Lemma synthesize_leading (impl : TensorImpl) (level batch_size : Z) :
  Forall (fun s => 0 <= s) (sizes_ impl) ->
  length (strides_ impl) = length (sizes_ impl) ->
  0 <= batch_size ->
  _remove_batch_dim (Regular impl) level batch_size 0
  = Ok (Regular (mkImpl (storage impl) (storage_offset impl)
                        (batch_size :: sizes_ impl) (0 :: strides_ impl))).
Proof.
  intros Hpos Hlen Hn.
  unfold _remove_batch_dim. simpl has_level. simpl negb. cbv iota.
  rewrite vec_insert_ok by (simpl; lia).
  unfold insert_at. simpl Z.to_nat. cbn [firstn skipn app bind].
  unfold Tensor.expand, Tensor.expand_impl, Tensor.broadcast.
  simpl rev at 3.
  rewrite broadcast_rev_leading;
    [ | now apply Forall_rev | now rewrite !length_rev | assumption ].
  cbn [bind]. rewrite !map_app, !rev_app_distr. simpl rev at 1 3. cbn [app].
  destruct (combine_fst_snd (rev (sizes_ impl)) (rev (strides_ impl))) as [E1 E2];
    [rewrite !length_rev; lia|].
  now rewrite E1, E2, !rev_involutive.
Qed.

Lemma synthesize_leading_slices (impl : TensorImpl) (batch_size j : Z) (index : list Z) :
  0 <= j < batch_size ->
  Tensor.item (mkImpl (storage impl) (storage_offset impl)
                      (batch_size :: sizes_ impl) (0 :: strides_ impl))
              (j :: index)
  = Tensor.item impl index.
Proof.
  intros Hj. unfold Tensor.item. cbn [sizes_ strides_ storage storage_offset].
  cbn [Tensor.in_bounds Tensor.linear_index].
  replace ((0 <=? j) && (j <? batch_size)) with true
    by (symmetry; apply andb_true_iff; split; [apply Z.leb_le | apply Z.ltb_lt]; lia).
  cbn [andb]. now rewrite Z.mul_0_r, Z.add_0_l.
Qed.

(** * Further properties of Batching.cpp *)

(** ** Sequences with one entry moved *)

Lemma insert_at_nth {A : Type} (pos : nat) (x d0 : A) (l : list A) :
  (pos <= length l)%nat -> nth pos (insert_at pos x l) d0 = x.
Proof.
  intros H. unfold insert_at.
  rewrite app_nth2 by (rewrite length_firstn; lia).
  rewrite length_firstn. now replace (pos - Nat.min pos (length l))%nat with 0%nat by lia.
Qed.

Lemma remove_insert_at {A : Type} (pos : nat) (x : A) (l : list A) :
  (pos <= length l)%nat -> remove_at pos (insert_at pos x l) = l.
Proof.
  intros H. unfold remove_at, insert_at.
  assert (E : length (firstn pos l) = pos) by (rewrite length_firstn; lia).
  rewrite firstn_app, E, Nat.sub_diag, firstn_O, app_nil_r.
  rewrite firstn_all2 by lia.
  rewrite skipn_app, E.
  rewrite skipn_all2 by lia.
  replace (S pos - pos)%nat with 1%nat by lia. simpl.
  apply firstn_skipn.
Qed.

Lemma insert_at_app {A : Type} (x : A) (l1 l2 : list A) :
  insert_at (length l1) x (l1 ++ l2) = l1 ++ x :: l2.
Proof.
  unfold insert_at.
  rewrite firstn_app, Nat.sub_diag, firstn_O, app_nil_r, firstn_all2 by lia.
  rewrite skipn_app, Nat.sub_diag, skipn_all2 by lia. reflexivity.
Qed.

Lemma remove_at_middle {A : Type} (x : A) (l1 l2 : list A) :
  remove_at (length l1) (l1 ++ x :: l2) = l1 ++ l2.
Proof.
  unfold remove_at.
  rewrite firstn_app, Nat.sub_diag, firstn_O, app_nil_r, firstn_all2 by lia.
  rewrite skipn_app, skipn_all2 by lia.
  now replace (S (length l1) - length l1)%nat with 1%nat by lia.
Qed.

Lemma insert_remove_at {A : Type} (pos : nat) (d0 : A) (l : list A) :
  (pos < length l)%nat -> insert_at pos (nth pos l d0) (remove_at pos l) = l.
Proof.
  intros H.
  destruct (nth_split l d0 H) as [l1 [l2 [Hl Hlen]]].
  set (x := nth pos l d0) in *. clearbody x. subst l pos.
  now rewrite remove_at_middle, insert_at_app.
Qed.

Lemma remove_at_length {A : Type} (pos : nat) (l : list A) :
  (pos < length l)%nat -> S (length (remove_at pos l)) = length l.
Proof.
  intros H. unfold remove_at.
  rewrite length_app, length_firstn, length_skipn. lia.
Qed.

Lemma insert_at_length {A : Type} (pos : nat) (x : A) (l : list A) :
  length (insert_at pos x l) = S (length l).
Proof.
  unfold insert_at. rewrite length_app. simpl.
  rewrite <- (firstn_skipn pos l) at 3. rewrite length_app. lia.
Qed.

Lemma map_insert_at {A B : Type} (f : A -> B) (pos : nat) (x : A) (l : list A) :
  map f (insert_at pos x l) = insert_at pos (f x) (map f l).
Proof.
  unfold insert_at. now rewrite map_app, firstn_map, skipn_map.
Qed.

Lemma move_dim_inverse (l : list Z) (src dst : nat) :
  (src < length l)%nat -> (dst < length l)%nat ->
  move_dim (move_dim l src dst) dst src = l.
Proof.
  intros Hs Hd. unfold move_dim.
  pose proof (remove_at_length src l Hs) as Hlen.
  rewrite insert_at_nth by lia.
  rewrite remove_insert_at by lia.
  now apply insert_remove_at.
Qed.

Lemma move_dim_same (l : list Z) (src : nat) :
  (src < length l)%nat -> move_dim l src src = l.
Proof. intros H. now apply insert_remove_at. Qed.

Lemma iota_split (n : nat) (p : Z) :
  0 <= p < Z.of_nat n ->
  iota n
  = iota (Z.to_nat p) ++ p :: map (fun d => p + 1 + d) (iota (n - 1 - Z.to_nat p)).
Proof.
  intros Hp.
  replace n with (Z.to_nat p + (1 + (n - 1 - Z.to_nat p)))%nat at 1 by lia.
  rewrite iota_app. f_equal.
  rewrite (iota_app 1). change (iota 1) with [0].
  cbn [map app]. f_equal; [lia|].
  rewrite map_map. apply map_ext. intros d. lia.
Qed.

Lemma filter_all {A : Type} (f : A -> bool) (l : list A) :
  (forall a, In a l -> f a = true) -> filter f l = l.
Proof.
  intros H. apply forallb_filter_id, forallb_forall. exact H.
Qed.

(** The entries of a sequence at every index but one, in order. *)
Lemma map_nthZ_skip_middle (l1 l2 : list Z) (x : Z) :
  map (nthZ (l1 ++ x :: l2))
      (filter (fun d => negb (d =? Z.of_nat (length l1)))
              (iota (length l1 + S (length l2))))
  = l1 ++ l2.
Proof.
  rewrite iota_app, filter_app.
  change (S (length l2)) with (1 + length l2)%nat.
  rewrite (iota_app 1). change (iota 1) with [0].
  cbn [map app filter].
  rewrite Z.add_0_r, Z.eqb_refl. cbn [negb].
  rewrite !filter_all.
  2:{ intros a Ha. apply in_map_iff in Ha. destruct Ha as [d [<- Hd]].
      apply in_map_iff in Hd. destruct Hd as [d' [<- Hd']].
      apply iota_In in Hd'. apply negb_true_iff, Z.eqb_neq. lia. }
  2:{ intros a Ha. apply iota_In in Ha. apply negb_true_iff, Z.eqb_neq. lia. }
  rewrite map_app, !map_map. f_equal.
  - etransitivity; [|apply (map_nthZ_iota l1)].
    apply map_ext_in. intros d Hd. apply iota_In in Hd.
    unfold nthZ. apply app_nth1. lia.
  - etransitivity; [|apply (map_nthZ_iota l2)].
    apply map_ext_in. intros d Hd. apply iota_In in Hd.
    change (l1 ++ x :: l2) with (l1 ++ [x] ++ l2). rewrite app_assoc.
    replace (Z.of_nat (length l1) + (Z.of_nat 1 + d))
      with (Z.of_nat (length (l1 ++ [x])) + d)
      by (rewrite length_app; simpl length; lia).
    apply nthZ_app_shift. lia.
Qed.

Lemma map_nthZ_skip (l : list Z) (src : Z) :
  0 <= src < Z.of_nat (length l) ->
  map (nthZ l) (filter (fun d => negb (d =? src)) (iota (length l)))
  = remove_at (Z.to_nat src) l.
Proof.
  intros Hs.
  destruct (nth_split (n := Z.to_nat src) l 0) as [l1 [l2 [Hl Hlen]]]; [lia|].
  set (x := nth (Z.to_nat src) l 0) in *. clearbody x. subst l.
  rewrite <- Hlen, remove_at_middle.
  replace src with (Z.of_nat (length l1)) by lia.
  rewrite length_app. simpl length. apply map_nthZ_skip_middle.
Qed.

(** The permute primitive applied to [moved_order] gives [move_dim]. *)
Lemma map_nthZ_moved_order (l : list Z) (src dst : Z) :
  0 <= src < Z.of_nat (length l) ->
  map (nthZ l) (moved_order (length l) src dst)
  = move_dim l (Z.to_nat src) (Z.to_nat dst).
Proof.
  intros Hs. unfold moved_order, move_dim.
  now rewrite map_insert_at, map_nthZ_skip.
Qed.

(** ** Entry point: where the synthesized dimension is asked for *)

Lemma broadcast_rev_mismatch (matched rest rtarget rstrides : list Z) (x n : Z) :
  x <> n -> x <> 1 ->
  Tensor.broadcast_rev (matched ++ x :: rest) rstrides (matched ++ n :: rtarget)
  = Err RuntimeError.
Proof.
  intros Hn H1. apply Z.eqb_neq in Hn. apply Z.eqb_neq in H1.
  revert rstrides. induction matched as [|a matched IH]; intros rstrides.
  - cbn [app Tensor.broadcast_rev]. rewrite Hn, H1. now destruct (n <? 0).
  - cbn [app Tensor.broadcast_rev]. rewrite Z.eqb_refl, IH. now destruct (a <? 0).
Qed.

(** A shape cannot be broadcast to itself with [n] put in right after a
    dimension whose size is neither [n] nor 1. *)
Lemma broadcast_inner_mismatch (l1 l2 strides : list Z) (x n : Z) :
  x <> n -> x <> 1 ->
  Tensor.broadcast (l1 ++ x :: l2) strides (l1 ++ x :: n :: l2) = Err RuntimeError.
Proof.
  intros Hn H1. unfold Tensor.broadcast.
  replace (rev (l1 ++ x :: l2)) with (rev l2 ++ x :: rev l1)
    by (rewrite rev_app_distr; simpl; now rewrite <- app_assoc).
  replace (rev (l1 ++ x :: n :: l2)) with (rev l2 ++ n :: x :: rev l1)
    by (rewrite rev_app_distr; simpl; now rewrite <- !app_assoc).
  now rewrite broadcast_rev_mismatch.
Qed.

(** C2 (not met by the code).  With the level present, [_remove_batch_dim]
    is [movedim] applied to what [remove_existing_batch_dim] returns, as
    claimed.  Without the level it asks the broadcast primitive for the
    logical shape with [batch_size] inserted at [out_dim]; the primitive
    matches trailing dimensions, so for every [out_dim] in [1, rank] whose
    preceding dimension has a size other than [batch_size] and 1 the call
    is rejected, and no array with a new dimension at [out_dim] is
    returned. *)
Theorem remove_batch_dim_synthesis_rejected
    (self : Tensor) (level batch_size out_dim : Z) :
  well_formed self ->
  has_level self level = false ->
  1 <= out_dim <= Tensor.dim self ->
  nthZ (Tensor.sizes self) (out_dim - 1) <> batch_size ->
  nthZ (Tensor.sizes self) (out_dim - 1) <> 1 ->
  _remove_batch_dim self level batch_size out_dim = Err RuntimeError.
Proof.
  intros Hwf Hhas Hout Hn H1. unfold Tensor.dim in Hout.
  destruct (nth_split (n := Z.to_nat (out_dim - 1)) (Tensor.sizes self) 0)
    as [l1 [l2 [Hl Hlen]]]; [lia|].
  unfold nthZ in Hn, H1.
  set (x := nth (Z.to_nat (out_dim - 1)) (Tensor.sizes self) 0) in *.
  clearbody x.
  assert (Hins : vec_insert (Tensor.sizes self) out_dim batch_size
                 = Ok (l1 ++ x :: batch_size :: l2)).
  { rewrite vec_insert_ok by lia. f_equal. rewrite Hl.
    replace (Z.to_nat out_dim) with (length (l1 ++ [x]))
      by (rewrite length_app; simpl; lia).
    change (l1 ++ x :: l2) with (l1 ++ [x] ++ l2). rewrite app_assoc.
    rewrite insert_at_app. now rewrite <- app_assoc. }
  unfold _remove_batch_dim. rewrite Hhas. cbn [negb]. rewrite Hins. cbn [bind].
  destruct self as [impl | value bdims].
  - cbn [Tensor.sizes] in Hl. unfold Tensor.expand, Tensor.expand_impl.
    rewrite Hl at 1. now rewrite broadcast_inner_mismatch.
  - unfold Tensor.expand.
    rewrite (permuteBatchDimsToFront_ok value bdims Hwf).
    cbn [bind sizes_ strides_].
    rewrite skipn_app, !length_map, Nat.sub_diag.
    rewrite skipn_all2 by (now rewrite !length_map).
    cbn [skipn app]. rewrite Hl at 1. now rewrite broadcast_inner_mismatch.
Qed.

Lemma remove_batch_dim_synthesis_rejected_example :
  _remove_batch_dim (Regular (mkImpl (iota 15) 0 [3; 5] [5; 1])) 0 7 2
  = Err RuntimeError.
Proof.
  apply (remove_batch_dim_synthesis_rejected
           (Regular (mkImpl (iota 15) 0 [3; 5] [5; 1])) 0 7 2).
  - exact I.
  - reflexivity.
  - unfold Tensor.dim. simpl. lia.
  - discriminate.
  - discriminate.
Defined.

(** ** movedim: range errors, placement, round trip *)

Lemma movedim_same_index (self : Tensor) (src dst k : Z) :
  maybe_wrap_dim src (Tensor.dim self) = Ok k ->
  maybe_wrap_dim dst (Tensor.dim self) = Ok k ->
  movedim self src dst = Ok self.
Proof.
  intros Hsrc Hdst. unfold movedim.
  rewrite Hsrc, Hdst. cbn [bind]. now rewrite Z.eqb_refl.
Qed.


Lemma maybe_wrap_dim_out_of_range (d n : Z) :
  ~ (- n <= d < n) -> maybe_wrap_dim d n = Err IndexError.
Proof.
  intros H. unfold maybe_wrap_dim.
  destruct ((- n <=? d) && (d <? n)) eqn:E; [|reflexivity].
  apply andb_true_iff in E. destruct E as [E1 E2].
  apply Z.leb_le in E1. apply Z.ltb_lt in E2. lia.
Qed.

Lemma maybe_wrap_dim_in_range (d n : Z) :
  - n <= d < n -> exists k, maybe_wrap_dim d n = Ok k /\ 0 <= k < n.
Proof.
  intros H. unfold maybe_wrap_dim.
  replace ((- n <=? d) && (d <? n)) with true
    by (symmetry; apply andb_true_iff; split; [apply Z.leb_le | apply Z.ltb_lt]; lia).
  eexists. split; [reflexivity|].
  destruct (d <? 0) eqn:E; [apply Z.ltb_lt in E | apply Z.ltb_ge in E]; lia.
Qed.

Lemma front_bdims_well_formed (p : TensorImpl) (bdims : BatchDims) :
  (length bdims <= length (sizes_ p))%nat ->
  well_formed (Batched p (Tensor.front_bdims 0 bdims)).
Proof.
  intros Hk. split.
  - unfold unique_dims. rewrite front_bdims_dims.
    apply Finite.Injective_map_NoDup; [|apply iota_NoDup].
    intros x y. lia.
  - unfold dims_in_range. apply Forall_forall. intros b Hb.
    assert (Hin : In (BatchDim.dim b) (map BatchDim.dim (Tensor.front_bdims 0 bdims)))
      by now apply in_map.
    rewrite front_bdims_dims in Hin. apply in_map_iff in Hin.
    destruct Hin as [j [Hj Hin]]. apply iota_In in Hin. lia.
Qed.

Lemma permute_well_formed (self : Tensor) (dims : list Z) (t : Tensor) :
  well_formed self ->
  Permutation dims (iota (length (Tensor.sizes self))) ->
  Tensor.permute self dims = Ok t ->
  well_formed t.
Proof.
  intros Hwf Hperm.
  destruct self as [impl | value bdims].
  - simpl. destruct (Tensor.permute_impl impl dims); simpl; intros E; inversion E.
    exact I.
  - pose proof (Permutation_iota_range _ _ Hperm) as [Hlen [Hrange _]].
    unfold Tensor.permute.
    rewrite (permuteBatchDimsToFront_ok value bdims Hwf).
    cbn [bind]. unfold Tensor.dim.
    rewrite (mapM_wrap_in_range _ _ Hrange). cbn [bind].
    set (front := map (nthZ (sizes_ value)) (map BatchDim.dim bdims)).
    assert (Hfront : length front = length bdims)
      by (unfold front; now rewrite !length_map).
    rewrite permute_impl_ok.
    2:{ cbn [sizes_]. rewrite length_app, Hfront, iota_app.
        apply Permutation_app_head, Permutation_map, Hperm. }
    cbn [bind]. intros E. inversion E. subst t.
    apply front_bdims_well_formed. cbn [sizes_].
    rewrite length_map, length_app, iota_length. lia.
Qed.

(** What [movedim] returns on normalized indices, equal or not. *)
Lemma movedim_result (self : Tensor) (src dst s d : Z) :
  well_formed self ->
  maybe_wrap_dim src (Tensor.dim self) = Ok s ->
  maybe_wrap_dim dst (Tensor.dim self) = Ok d ->
  exists t,
    movedim self src dst = Ok t
    /\ well_formed t
    /\ Tensor.sizes t = move_dim (Tensor.sizes self) (Z.to_nat s) (Z.to_nat d).
Proof.
  intros Hwf Hsrc Hdst.
  pose proof (maybe_wrap_dim_range _ _ _ Hsrc) as Rs. unfold Tensor.dim in Rs.
  destruct (Z.eq_dec s d) as [-> | Hne].
  - exists self. split; [now apply (movedim_same_index self src dst d)|].
    split; [assumption|]. symmetry. apply move_dim_same. lia.
  - destruct (movedim_permute self src dst s d Hsrc Hdst Hne) as [_ Hmove].
    pose proof (moved_order_Permutation (length (Tensor.sizes self)) s d Rs) as Hperm.
    destruct (permute_sizes self _ Hwf Hperm) as [t [Ht Hsizes]].
    exists t. split; [congruence|]. split.
    + exact (permute_well_formed self _ t Hwf Hperm Ht).
    + now rewrite Hsizes, map_nthZ_moved_order.
Qed.

Lemma move_dim_length (l : list Z) (src dst : nat) :
  (src < length l)%nat -> length (move_dim l src dst) = length l.
Proof.
  intros H. unfold move_dim. rewrite insert_at_length. now apply remove_at_length.
Qed.

(** [movedim] succeeds exactly on indices within [-rank, rank): it returns
    an array of the same rank when both are, and the range error of the
    failing normalization otherwise. *)
Theorem movedim_range (self : Tensor) (src dst : Z) :
  well_formed self ->
  (- Tensor.dim self <= src < Tensor.dim self
   /\ - Tensor.dim self <= dst < Tensor.dim self ->
   exists t, movedim self src dst = Ok t /\ Tensor.dim t = Tensor.dim self)
  /\ (~ (- Tensor.dim self <= src < Tensor.dim self
         /\ - Tensor.dim self <= dst < Tensor.dim self) ->
      movedim self src dst = Err IndexError).
Proof.
  intros Hwf. split.
  - intros [Hs Hd].
    destruct (maybe_wrap_dim_in_range _ _ Hs) as [s [Hsrc Rs]].
    destruct (maybe_wrap_dim_in_range _ _ Hd) as [d [Hdst Rd]].
    destruct (movedim_result self src dst s d Hwf Hsrc Hdst) as [t [Ht [_ Hsizes]]].
    exists t. split; [exact Ht|].
    unfold Tensor.dim in *. rewrite Hsizes, move_dim_length; [reflexivity | lia].
  - intros Hout. unfold movedim.
    assert (Hcases : ~ (- Tensor.dim self <= src < Tensor.dim self)
                     \/ (- Tensor.dim self <= src < Tensor.dim self
                         /\ ~ (- Tensor.dim self <= dst < Tensor.dim self))) by lia.
    destruct Hcases as [Hs | [Hs Hd]].
    + now rewrite maybe_wrap_dim_out_of_range.
    + destruct (maybe_wrap_dim_in_range _ _ Hs) as [s [Hsrc _]].
      rewrite Hsrc. cbn [bind]. now rewrite maybe_wrap_dim_out_of_range.
Qed.

Lemma movedim_range_example :
  (exists t, movedim (Regular payload4) (-4) 3 = Ok t
             /\ Tensor.dim t = Tensor.dim (Regular payload4))
  /\ movedim (Regular payload4) 4 0 = Err IndexError.
Proof.
  split.
  - apply (proj1 (movedim_range (Regular payload4) (-4) 3 I)).
    unfold Tensor.dim. simpl. lia.
  - apply (proj2 (movedim_range (Regular payload4) 4 0 I)).
    unfold Tensor.dim. simpl. lia.
Defined.

(** [movedim] puts the size found at [src] at position [dst] and leaves the
    other sizes in their relative order: taking position [dst] out of the
    result gives the input with position [src] taken out. *)
Theorem movedim_placement (self : Tensor) (src dst s d : Z) :
  well_formed self ->
  maybe_wrap_dim src (Tensor.dim self) = Ok s ->
  maybe_wrap_dim dst (Tensor.dim self) = Ok d ->
  exists t,
    movedim self src dst = Ok t
    /\ nthZ (Tensor.sizes t) d = nthZ (Tensor.sizes self) s
    /\ remove_at (Z.to_nat d) (Tensor.sizes t)
       = remove_at (Z.to_nat s) (Tensor.sizes self).
Proof.
  intros Hwf Hsrc Hdst.
  pose proof (maybe_wrap_dim_range _ _ _ Hsrc) as Rs.
  pose proof (maybe_wrap_dim_range _ _ _ Hdst) as Rd.
  unfold Tensor.dim in Rs, Rd.
  destruct (movedim_result self src dst s d Hwf Hsrc Hdst) as [t [Ht [_ Hsizes]]].
  exists t. split; [exact Ht|].
  assert (Hlen : S (length (remove_at (Z.to_nat s) (Tensor.sizes self)))
                 = length (Tensor.sizes self)) by (apply remove_at_length; lia).
  rewrite Hsizes. unfold move_dim, nthZ. split.
  - apply insert_at_nth. lia.
  - apply remove_insert_at. lia.
Qed.

Lemma movedim_placement_example :
  exists t,
    movedim (Batched payload4 [BatchDim.mk 0 1]) (-1) 0 = Ok t
    /\ nthZ (Tensor.sizes t) 0
       = nthZ (Tensor.sizes (Batched payload4 [BatchDim.mk 0 1])) 2
    /\ remove_at (Z.to_nat 0) (Tensor.sizes t)
       = remove_at (Z.to_nat 2) (Tensor.sizes (Batched payload4 [BatchDim.mk 0 1])).
Proof.
  apply (movedim_placement (Batched payload4 [BatchDim.mk 0 1]) (-1) 0 2 0).
  - split.
    + unfold unique_dims. simpl. constructor; [simpl; tauto | constructor].
    + unfold dims_in_range. simpl. repeat constructor; simpl; lia.
  - reflexivity.
  - reflexivity.
Defined.

Lemma movedim_regular (impl : TensorImpl) (src dst s d : Z) :
  length (strides_ impl) = length (sizes_ impl) ->
  maybe_wrap_dim src (Tensor.dim (Regular impl)) = Ok s ->
  maybe_wrap_dim dst (Tensor.dim (Regular impl)) = Ok d ->
  movedim (Regular impl) src dst
  = Ok (Regular (mkImpl (storage impl) (storage_offset impl)
                        (move_dim (sizes_ impl) (Z.to_nat s) (Z.to_nat d))
                        (move_dim (strides_ impl) (Z.to_nat s) (Z.to_nat d)))).
Proof.
  intros Hstr Hsrc Hdst.
  pose proof (maybe_wrap_dim_range _ _ _ Hsrc) as Rs.
  unfold Tensor.dim in Rs. cbn [Tensor.sizes] in Rs.
  destruct (Z.eq_dec s d) as [-> | Hne].
  - rewrite (movedim_same_index _ src dst d Hsrc Hdst).
    rewrite !move_dim_same by lia. now destruct impl.
  - destruct (movedim_permute _ src dst s d Hsrc Hdst Hne) as [_ Hmove].
    rewrite Hmove. cbn [Tensor.permute Tensor.sizes].
    rewrite permute_impl_ok by now apply moved_order_Permutation.
    cbn [bind]. rewrite map_nthZ_moved_order by lia.
    rewrite <- Hstr at 1. rewrite map_nthZ_moved_order by lia.
    reflexivity.
Qed.

(** Moving a dimension from [src] to [dst] and back from [dst] to [src]
    restores the logical shape; on a regular tensor (one stride per size)
    it restores the tensor itself, strides included. *)
Theorem movedim_round_trip (self : Tensor) (src dst s d : Z) :
  well_formed self ->
  maybe_wrap_dim src (Tensor.dim self) = Ok s ->
  maybe_wrap_dim dst (Tensor.dim self) = Ok d ->
  exists t t',
    movedim self src dst = Ok t
    /\ movedim t d s = Ok t'
    /\ Tensor.sizes t' = Tensor.sizes self
    /\ (forall impl,
           self = Regular impl ->
           length (strides_ impl) = length (sizes_ impl) ->
           t' = self).
Proof.
  intros Hwf Hsrc Hdst.
  pose proof (maybe_wrap_dim_range _ _ _ Hsrc) as Rs.
  pose proof (maybe_wrap_dim_range _ _ _ Hdst) as Rd.
  unfold Tensor.dim in Rs, Rd.
  destruct (movedim_result self src dst s d Hwf Hsrc Hdst) as [t [Ht [Hwft Hsizes]]].
  assert (Hdim : Tensor.dim t = Tensor.dim self).
  { unfold Tensor.dim. rewrite Hsizes, move_dim_length; [reflexivity | lia]. }
  assert (Hd' : maybe_wrap_dim d (Tensor.dim t) = Ok d)
    by (apply maybe_wrap_dim_fixed; rewrite Hdim; unfold Tensor.dim; lia).
  assert (Hs' : maybe_wrap_dim s (Tensor.dim t) = Ok s)
    by (apply maybe_wrap_dim_fixed; rewrite Hdim; unfold Tensor.dim; lia).
  destruct (movedim_result t d s d s Hwft Hd' Hs') as [t' [Ht' [_ Hsizes']]].
  exists t, t'. split; [exact Ht|]. split; [exact Ht'|]. split.
  - rewrite Hsizes', Hsizes. apply move_dim_inverse; lia.
  - intros impl -> Hstr. cbn [Tensor.sizes] in *.
    rewrite (movedim_regular impl src dst s d Hstr Hsrc Hdst) in Ht.
    inversion Ht. subst t. clear Ht.
    assert (Hstr' : length (strides_ (mkImpl (storage impl) (storage_offset impl)
                      (move_dim (sizes_ impl) (Z.to_nat s) (Z.to_nat d))
                      (move_dim (strides_ impl) (Z.to_nat s) (Z.to_nat d))))
                    = length (sizes_ (mkImpl (storage impl) (storage_offset impl)
                      (move_dim (sizes_ impl) (Z.to_nat s) (Z.to_nat d))
                      (move_dim (strides_ impl) (Z.to_nat s) (Z.to_nat d)))))
      by (cbn [sizes_ strides_]; rewrite !move_dim_length by lia; exact Hstr).
    rewrite (movedim_regular _ d s d s Hstr' Hd' Hs') in Ht'.
    cbn [storage storage_offset sizes_ strides_] in Ht'.
    rewrite !move_dim_inverse in Ht' by lia.
    inversion Ht'. now destruct impl.
Qed.

Lemma movedim_round_trip_example :
  exists t t',
    movedim (Regular payload4) 0 (-1) = Ok t
    /\ movedim t 3 0 = Ok t'
    /\ Tensor.sizes t' = Tensor.sizes (Regular payload4)
    /\ (forall impl,
           Regular payload4 = Regular impl ->
           length (strides_ impl) = length (sizes_ impl) ->
           t' = Regular payload4).
Proof.
  apply (movedim_round_trip (Regular payload4) 0 (-1) 0 3).
  - exact I.
  - reflexivity.
  - reflexivity.
Defined.

(** ** remove_existing_batch_dim: where the exposed dimension appears *)

Lemma filter_filter {A : Type} (f g : A -> bool) (l : list A) :
  filter f (filter g l) = filter (fun a => g a && f a) l.
Proof.
  induction l as [|a l IH]; simpl; [reflexivity|].
  destruct (g a); simpl; [destruct (f a)|]; now rewrite IH.
Qed.

Lemma survivors_alone (level : Z) (bdims : BatchDims) :
  existsb (fun b => BatchDim.level b =? level) bdims = false ->
  survivors level bdims = bdims.
Proof.
  intros H. apply filter_all. intros b Hb.
  apply negb_true_iff, not_true_iff_false. intros E.
  apply not_true_iff_false in H. apply H.
  apply existsb_exists. now exists b.
Qed.

Lemma unique_levels_tail_absent (a : BatchDim.t) (bdims : BatchDims) :
  unique_levels (a :: bdims) ->
  existsb (fun b => BatchDim.level b =? BatchDim.level a) bdims = false.
Proof.
  unfold unique_levels. simpl. intros Hnd.
  inversion Hnd as [|? ? Hnotin _]; subst.
  apply not_true_iff_false. intros E. apply existsb_exists in E.
  destruct E as [b [Hb Hlv]]. apply Z.eqb_eq in Hlv.
  apply Hnotin. rewrite <- Hlv. now apply in_map.
Qed.

(** A physical position is tagged iff it is the exposed one or is tagged by
    a surviving entry. *)
Lemma is_bdim_survivors (bdims : BatchDims) (b : BatchDim.t) (q : Z) :
  unique_levels bdims -> In b bdims ->
  Tensor.is_bdim bdims q
  = (BatchDim.dim b =? q) || Tensor.is_bdim (survivors (BatchDim.level b) bdims) q.
Proof.
  induction bdims as [|a bdims IH]; intros Hnd Hin; [contradiction|].
  pose proof (unique_levels_tail_absent a bdims Hnd) as Htail.
  assert (Hnd' : unique_levels bdims)
    by (unfold unique_levels in *; simpl in Hnd; now inversion Hnd).
  destruct Hin as [-> | Hin].
  - unfold survivors. cbn [filter]. rewrite Z.eqb_refl. cbn [negb].
    fold (survivors (BatchDim.level b) bdims).
    now rewrite survivors_alone.
  - assert (Hne : (BatchDim.level a =? BatchDim.level b) = false).
    { apply Z.eqb_neq. intros E. apply not_true_iff_false in Htail. apply Htail.
      apply existsb_exists. exists b. split; [assumption|].
      apply Z.eqb_eq. now symmetry. }
    unfold survivors. cbn [filter]. rewrite Hne. cbn [negb].
    fold (survivors (BatchDim.level b) bdims).
    unfold Tensor.is_bdim in *. cbn [existsb]. rewrite (IH Hnd' Hin).
    destruct (BatchDim.dim a =? q), (BatchDim.dim b =? q); reflexivity.
Qed.

(** Among the positions below [p], the untagged ones number [p - c]. *)
Lemma untagged_below (bdims : BatchDims) (n : nat) (p : Z) :
  unique_dims bdims -> dims_in_range bdims n -> 0 <= p ->
  Z.of_nat (length (filter (fun q => negb (Tensor.is_bdim bdims q)) (iota (Z.to_nat p))))
  = p - count_if (fun b => BatchDim.dim b <? p) bdims.
Proof.
  intros Hnd Hrange Hp.
  pose proof (count_if_split (Tensor.is_bdim bdims) (iota (Z.to_nat p))) as Hsplit.
  rewrite iota_length in Hsplit.
  assert (E : length (filter (Tensor.is_bdim bdims) (iota (Z.to_nat p)))
              = length (filter (fun b => BatchDim.dim b <? p) bdims)).
  { rewrite <- (length_map BatchDim.dim (filter _ bdims)).
    apply Permutation_length, NoDup_Permutation.
    - apply NoDup_filter, iota_NoDup.
    - now apply NoDup_map_filter.
    - intros q. rewrite filter_In, iota_In, is_bdim_In, !in_map_iff.
      unfold dims_in_range in Hrange. rewrite Forall_forall in Hrange.
      split.
      + intros [Hq [b [Hb Hin]]]. exists b. split; [assumption|].
        apply filter_In. split; [assumption|]. apply Z.ltb_lt. lia.
      + intros [b [Hb Hin]]. apply filter_In in Hin. destruct Hin as [Hin Hlt].
        apply Z.ltb_lt in Hlt. specialize (Hrange b Hin).
        split; [lia|]. now exists b. }
  unfold count_if. lia.
Qed.

(** The logical shape once (level, p) is taken out of the tag set is the
    logical shape before, with the size of physical dimension [p] put in at
    index [p - c]. *)
Lemma exposed_shape (sz : list Z) (bdims : BatchDims) (b : BatchDim.t) :
  unique_levels bdims -> unique_dims bdims -> dims_in_range bdims (length sz) ->
  In b bdims ->
  let rest := survivors (BatchDim.level b) bdims in
  let p := BatchDim.dim b in
  map (nthZ sz) (Tensor.logical_dims rest (length sz))
  = insert_at (Z.to_nat (p - count_if (fun x => BatchDim.dim x <? p) rest))
              (nthZ sz p)
              (map (nthZ sz) (Tensor.logical_dims bdims (length sz))).
Proof.
  intros Hlv Hnd Hrange Hb rest p.
  assert (Hnd' : unique_dims rest) by (now apply NoDup_map_filter).
  assert (Hrange' : dims_in_range rest (length sz)).
  { unfold dims_in_range in *. rewrite Forall_forall in *.
    intros x Hx. apply filter_In in Hx. now apply Hrange. }
  assert (Hpn : 0 <= p < Z.of_nat (length sz)).
  { unfold dims_in_range in Hrange. rewrite Forall_forall in Hrange. now apply Hrange. }
  assert (Hfree : Tensor.is_bdim rest p = false).
  { apply not_true_iff_false. intros E. apply is_bdim_In, in_map_iff in E.
    destruct E as [x [Hx Hin]]. apply filter_In in Hin. destruct Hin as [Hin Hxlv].
    apply negb_true_iff, Z.eqb_neq in Hxlv. apply Hxlv.
    now rewrite (NoDup_map_injective BatchDim.dim bdims x b Hnd Hin Hb Hx). }
  set (g := fun q => negb (Tensor.is_bdim rest q)).
  assert (Hbefore : Tensor.logical_dims bdims (length sz)
                    = filter (fun q => negb (q =? p)) (Tensor.logical_dims rest (length sz))).
  { unfold Tensor.logical_dims. rewrite filter_filter. apply filter_ext.
    intros q. rewrite (is_bdim_survivors bdims b q Hlv Hb).
    fold rest. fold p. rewrite negb_orb, andb_comm. f_equal. f_equal. apply Z.eqb_sym. }
  assert (Hsplit : Tensor.logical_dims rest (length sz)
                   = filter g (iota (Z.to_nat p))
                     ++ p :: filter g (map (fun d => p + 1 + d)
                                           (iota (length sz - 1 - Z.to_nat p)))).
  { unfold Tensor.logical_dims. rewrite (iota_split (length sz) p Hpn), filter_app.
    cbn [filter]. fold g. unfold g at 2. now rewrite Hfree. }
  rewrite Hbefore, Hsplit, filter_app. cbn [filter].
  rewrite Z.eqb_refl. cbn [negb].
  rewrite !(filter_all (fun q => negb (q =? p))).
  2:{ intros q Hq. apply filter_In in Hq. destruct Hq as [Hq _].
      apply in_map_iff in Hq. destruct Hq as [d [<- Hd]]. apply iota_In in Hd.
      apply negb_true_iff, Z.eqb_neq. lia. }
  2:{ intros q Hq. apply filter_In in Hq. destruct Hq as [Hq _].
      apply iota_In in Hq. apply negb_true_iff, Z.eqb_neq. lia. }
  rewrite !map_app. cbn [map].
  pose proof (untagged_below rest (length sz) p Hnd' Hrange' (proj1 Hpn)) as Hcount.
  fold g in Hcount. rewrite <- Hcount, Nat2Z.id.
  rewrite <- (length_map (nthZ sz) (filter g (iota (Z.to_nat p)))).
  symmetry. apply insert_at_app.
Qed.

Lemma has_level_entry (value : TensorImpl) (bdims : BatchDims) (level : Z) :
  has_level (Batched value bdims) level = true ->
  exists b, In b bdims /\ BatchDim.level b = level.
Proof.
  simpl. intros H. apply existsb_exists in H. destruct H as [b [Hb Hlv]].
  apply Z.eqb_eq in Hlv. now exists b.
Qed.

Lemma logical_dims_untagged (n : nat) : Tensor.logical_dims [] n = iota n.
Proof. unfold Tensor.logical_dims. now apply filter_all. Qed.

Lemma survivors_single (b : BatchDim.t) : survivors (BatchDim.level b) [b] = [].
Proof. unfold survivors. cbn [filter]. now rewrite Z.eqb_refl. Qed.

(** Everything the Remover returns on a tag set of the data model. *)
Lemma remove_existing_batch_dim_result
    (value : TensorImpl) (bdims : BatchDims) (level : Z) :
  unique_levels bdims ->
  unique_dims bdims ->
  dims_in_range bdims (length (sizes_ value)) ->
  has_level (Batched value bdims) level = true ->
  exists b t i,
    In b bdims /\ BatchDim.level b = level
    /\ i = BatchDim.dim b
           - count_if (fun x => BatchDim.dim x <? BatchDim.dim b) (survivors level bdims)
    /\ remove_existing_batch_dim (Batched value bdims) level = Ok (t, i)
    /\ t = (if Nat.eqb (length bdims) 1 then Regular value
            else Batched value (survivors level bdims))
    /\ well_formed t
    /\ 0 <= i <= Z.of_nat (length (Tensor.sizes (Batched value bdims)))
    /\ Tensor.sizes t
       = insert_at (Z.to_nat i) (nthZ (sizes_ value) (BatchDim.dim b))
                   (Tensor.sizes (Batched value bdims)).
Proof.
  intros Hlv Hnd Hrange Hhas.
  destruct (has_level_entry value bdims level Hhas) as [b [Hb Hblv]].
  subst level.
  set (rest := survivors (BatchDim.level b) bdims).
  set (p := BatchDim.dim b).
  set (i := p - count_if (fun x => BatchDim.dim x <? p) rest).
  assert (Hnd' : unique_dims rest) by (now apply NoDup_map_filter).
  assert (Hrange' : dims_in_range rest (length (sizes_ value))).
  { unfold dims_in_range in *. rewrite Forall_forall in *.
    intros x Hx. apply filter_In in Hx. now apply Hrange. }
  assert (Hk : S (length rest) = length bdims)
    by (now apply (survivors_length (BatchDim.level b) bdims b)).
  assert (Hp' : ~ In p (map BatchDim.dim rest)).
  { intros Hin. apply in_map_iff in Hin. destruct Hin as [x [Hx Hin]].
    apply filter_In in Hin. destruct Hin as [Hin Hxlv].
    apply negb_true_iff, Z.eqb_neq in Hxlv. apply Hxlv.
    now rewrite (NoDup_map_injective BatchDim.dim bdims x b Hnd Hin Hb Hx). }
  assert (Hpn : 0 <= p < Z.of_nat (length (sizes_ value))).
  { unfold dims_in_range in Hrange. rewrite Forall_forall in Hrange. now apply Hrange. }
  pose proof (exposed_logical_dim_bounds rest _ p Hnd' Hrange' Hp' Hpn) as Hbound.
  pose proof (logical_dims_length bdims _ Hnd Hrange) as Hlog.
  pose proof (exposed_shape (sizes_ value) bdims b Hlv Hnd Hrange Hb) as Hshape.
  cbv zeta in Hshape. fold rest p i in Hshape.
  exists b, (if Nat.eqb (length bdims) 1 then Regular value else Batched value rest), i.
  split; [exact Hb|]. split; [reflexivity|]. split; [reflexivity|].
  assert (Hi : 0 <= i <= Z.of_nat (length (Tensor.sizes (Batched value bdims))))
    by (cbn [Tensor.sizes]; rewrite length_map; fold i in Hbound; lia).
  destruct (Nat.eqb (length bdims) 1) eqn:Hone.
  - apply Nat.eqb_eq in Hone.
    destruct bdims as [|b0 [|b1 more]]; try discriminate Hone.
    destruct Hb as [-> | []].
    assert (Hrest : rest = []) by apply survivors_single.
    split; [|split; [reflexivity|split; [exact I|split; [exact Hi|]]]].
    + unfold remove_existing_batch_dim. cbn [maybeGetBatched].
      rewrite Z.eqb_refl. unfold i. rewrite Hrest. unfold count_if. cbn [filter length].
      fold p. now rewrite Z.sub_0_r.
    + etransitivity; [|exact Hshape].
      rewrite Hrest, logical_dims_untagged. cbn [Tensor.sizes].
      symmetry. apply map_nthZ_iota.
  - apply Nat.eqb_neq in Hone.
    split; [|split; [reflexivity|split; [now split|split; [exact Hi|exact Hshape]]]].
    rewrite remove_existing_batch_dim_multi by assumption.
    now rewrite (exposed_dim_unique (BatchDim.level b) bdims None p Hlv)
      by (now destruct b).
Qed.

(** The index returned by the Remover points at the exposed dimension: the
    returned array's logical shape is the input's logical shape with the
    size of the exposed physical dimension put in at that index. *)
Theorem remove_existing_batch_dim_shape
    (value : TensorImpl) (bdims : BatchDims) (level : Z) :
  unique_levels bdims ->
  unique_dims bdims ->
  dims_in_range bdims (length (sizes_ value)) ->
  has_level (Batched value bdims) level = true ->
  exists b t i,
    In b bdims /\ BatchDim.level b = level
    /\ remove_existing_batch_dim (Batched value bdims) level = Ok (t, i)
    /\ nthZ (Tensor.sizes t) i = nthZ (sizes_ value) (BatchDim.dim b)
    /\ remove_at (Z.to_nat i) (Tensor.sizes t) = Tensor.sizes (Batched value bdims).
Proof.
  intros Hlv Hnd Hrange Hhas.
  destruct (remove_existing_batch_dim_result value bdims level Hlv Hnd Hrange Hhas)
    as [b [t [i [Hb [Hblv [_ [Hrun [_ [_ [Hi Hsizes]]]]]]]]]].
  exists b, t, i. split; [exact Hb|]. split; [exact Hblv|]. split; [exact Hrun|].
  rewrite Hsizes. unfold nthZ. split.
  - apply insert_at_nth. lia.
  - apply remove_insert_at. lia.
Qed.

Lemma remove_existing_batch_dim_shape_example :
  exists b t i,
    In b [BatchDim.mk 0 1; BatchDim.mk 1 3; BatchDim.mk 2 0]
    /\ BatchDim.level b = 1
    /\ remove_existing_batch_dim
         (Batched payload4 [BatchDim.mk 0 1; BatchDim.mk 1 3; BatchDim.mk 2 0]) 1
       = Ok (t, i)
    /\ nthZ (Tensor.sizes t) i = nthZ (sizes_ payload4) (BatchDim.dim b)
    /\ remove_at (Z.to_nat i) (Tensor.sizes t)
       = Tensor.sizes
           (Batched payload4 [BatchDim.mk 0 1; BatchDim.mk 1 3; BatchDim.mk 2 0]).
Proof.
  apply (remove_existing_batch_dim_shape
           payload4 [BatchDim.mk 0 1; BatchDim.mk 1 3; BatchDim.mk 2 0] 1).
  - apply distinct_NoDup. reflexivity.
  - apply distinct_NoDup. reflexivity.
  - unfold dims_in_range. simpl. repeat constructor; simpl; lia.
  - reflexivity.
Defined.

(** ** _remove_batch_dim: the level-present path end to end *)

(** For a tagged array of the data model that holds the level, and an
    [out_dim] within [-(rank+1), rank+1), [_remove_batch_dim] returns an
    array whose logical shape is the input's logical shape with the size of
    the level's physical dimension put in at the normalized [out_dim]. *)
Theorem remove_batch_dim_shape
    (value : TensorImpl) (bdims : BatchDims) (level batch_size out_dim d : Z) :
  unique_levels bdims ->
  unique_dims bdims ->
  dims_in_range bdims (length (sizes_ value)) ->
  has_level (Batched value bdims) level = true ->
  maybe_wrap_dim out_dim (Tensor.dim (Batched value bdims) + 1) = Ok d ->
  exists b t,
    In b bdims /\ BatchDim.level b = level
    /\ _remove_batch_dim (Batched value bdims) level batch_size out_dim = Ok t
    /\ Tensor.sizes t
       = insert_at (Z.to_nat d) (nthZ (sizes_ value) (BatchDim.dim b))
                   (Tensor.sizes (Batched value bdims)).
Proof.
  intros Hlv Hnd Hrange Hhas Hout.
  destruct (remove_existing_batch_dim_result value bdims level Hlv Hnd Hrange Hhas)
    as [b [t' [i [Hb [Hblv [_ [Hrun [_ [Hwf [Hi Hsizes]]]]]]]]]].
  assert (Hdim : Tensor.dim t' = Tensor.dim (Batched value bdims) + 1).
  { unfold Tensor.dim. rewrite Hsizes, insert_at_length. lia. }
  assert (Hsrc : maybe_wrap_dim i (Tensor.dim t') = Ok i)
    by (apply maybe_wrap_dim_fixed; rewrite Hdim; unfold Tensor.dim; lia).
  rewrite <- Hdim in Hout.
  pose proof (maybe_wrap_dim_range _ _ _ Hout) as Rd.
  destruct (movedim_result t' i out_dim i d Hwf Hsrc Hout) as [t [Ht [_ Hmoved]]].
  exists b, t. split; [exact Hb|]. split; [exact Hblv|].
  unfold _remove_batch_dim. rewrite Hhas. cbn [negb]. rewrite Hrun. cbn [bind].
  split; [exact Ht|].
  rewrite Hmoved, Hsizes. unfold move_dim.
  rewrite (insert_at_nth (Z.to_nat i)) by lia.
  now rewrite remove_insert_at by lia.
Qed.

Lemma remove_batch_dim_shape_example :
  exists b t,
    In b [BatchDim.mk 0 1; BatchDim.mk 1 3] /\ BatchDim.level b = 1
    /\ _remove_batch_dim (Batched payload4 [BatchDim.mk 0 1; BatchDim.mk 1 3]) 1 7 (-1)
       = Ok t
    /\ Tensor.sizes t
       = insert_at (Z.to_nat 2) (nthZ (sizes_ payload4) (BatchDim.dim b))
                   (Tensor.sizes (Batched payload4 [BatchDim.mk 0 1; BatchDim.mk 1 3])).
Proof.
  apply (remove_batch_dim_shape
           payload4 [BatchDim.mk 0 1; BatchDim.mk 1 3] 1 7 (-1) 2).
  - apply distinct_NoDup. reflexivity.
  - apply distinct_NoDup. reflexivity.
  - unfold dims_in_range. simpl. repeat constructor; simpl; lia.
  - reflexivity.
  - reflexivity.
Defined.

(** Removing the only batch dim gives a regular tensor: the payload with
    the tagged dimension moved to the normalized [out_dim], sizes and
    strides alike; the storage is not touched. *)
Theorem remove_batch_dim_last
    (value : TensorImpl) (b : BatchDim.t) (batch_size out_dim d : Z) :
  length (strides_ value) = length (sizes_ value) ->
  0 <= BatchDim.dim b < Z.of_nat (length (sizes_ value)) ->
  maybe_wrap_dim out_dim (Z.of_nat (length (sizes_ value))) = Ok d ->
  _remove_batch_dim (Batched value [b]) (BatchDim.level b) batch_size out_dim
  = Ok (Regular
          (mkImpl (storage value) (storage_offset value)
                  (move_dim (sizes_ value) (Z.to_nat (BatchDim.dim b)) (Z.to_nat d))
                  (move_dim (strides_ value) (Z.to_nat (BatchDim.dim b)) (Z.to_nat d)))).
Proof.
  intros Hstr Hp Hout.
  unfold _remove_batch_dim, has_level. cbn [maybeGetBatched existsb].
  rewrite Z.eqb_refl. cbn [orb negb].
  unfold remove_existing_batch_dim. cbn [maybeGetBatched].
  rewrite Z.eqb_refl. cbn [bind].
  apply movedim_regular; [exact Hstr | | exact Hout].
  now apply maybe_wrap_dim_fixed.
Qed.

Lemma remove_batch_dim_last_example :
  _remove_batch_dim (Batched payload4 [BatchDim.mk 5 2]) 5 5 0
  = Ok (Regular (mkImpl (iota 210) 0 [5; 2; 3; 7] [7; 105; 35; 1])).
Proof.
  apply (remove_batch_dim_last payload4 (BatchDim.mk 5 2) 5 0 0).
  - reflexivity.
  - simpl. lia.
  - reflexivity.
Defined.

(** ** _remove_batch_dim: the level-absent path *)

(** On the level-absent path [out_dim] is used as it is, without
    normalization: any value outside [0, rank], negative ones included, is
    an insert position outside the vector and no check stops it. *)
Theorem remove_batch_dim_out_dim_unchecked
    (self : Tensor) (level batch_size out_dim : Z) :
  has_level self level = false ->
  out_dim < 0 \/ Tensor.dim self < out_dim ->
  _remove_batch_dim self level batch_size out_dim = Err Undefined.
Proof.
  intros Hhas Hout. unfold _remove_batch_dim. rewrite Hhas. cbn [negb].
  unfold vec_insert, Tensor.dim in *.
  replace ((0 <=? out_dim) && (out_dim <=? Z.of_nat (length (Tensor.sizes self))))
    with false; [reflexivity|].
  symmetry. apply andb_false_iff.
  destruct Hout as [H | H]; [left; apply Z.leb_gt | right; apply Z.leb_gt]; lia.
Qed.

Lemma remove_batch_dim_out_dim_unchecked_example :
  _remove_batch_dim (Regular payload4) 0 6 (-1) = Err Undefined.
Proof.
  apply (remove_batch_dim_out_dim_unchecked (Regular payload4) 0 6 (-1)).
  - reflexivity.
  - left. lia.
Defined.

(** With [out_dim = 0] on a regular tensor, the level-absent path returns
    the input's shape behind a new leading dimension of [batch_size], on the
    same storage, and every slice along that dimension reads the elements
    of the input. *)
Theorem remove_batch_dim_synthesized_leading
    (impl : TensorImpl) (level batch_size : Z) :
  Forall (fun s => 0 <= s) (sizes_ impl) ->
  length (strides_ impl) = length (sizes_ impl) ->
  0 <= batch_size ->
  exists p,
    _remove_batch_dim (Regular impl) level batch_size 0 = Ok (Regular p)
    /\ sizes_ p = batch_size :: sizes_ impl
    /\ storage p = storage impl
    /\ (forall j index,
           0 <= j < batch_size ->
           Tensor.item p (j :: index) = Tensor.item impl index).
Proof.
  intros Hpos Hstr Hn.
  eexists. split; [now apply synthesize_leading|].
  split; [reflexivity|]. split; [reflexivity|].
  intros j index Hj. now apply synthesize_leading_slices.
Qed.

Lemma remove_batch_dim_synthesized_leading_example :
  exists p,
    _remove_batch_dim (Regular payload4) 0 6 0 = Ok (Regular p)
    /\ sizes_ p = 6 :: sizes_ payload4
    /\ storage p = storage payload4
    /\ (forall j index,
           0 <= j < 6 ->
           Tensor.item p (j :: index) = Tensor.item payload4 index).
Proof.
  apply (remove_batch_dim_synthesized_leading payload4 0 6).
  - simpl. repeat constructor; lia.
  - reflexivity.
  - lia.
Defined.

(** ** Levels: lookup, insertion, removal *)

Lemma existsb_filter {A : Type} (f g : A -> bool) (l : list A) :
  existsb g (filter f l) = existsb (fun a => f a && g a) l.
Proof.
  induction l as [|a l IH]; simpl; [reflexivity|].
  destruct (f a); simpl; now rewrite IH.
Qed.

Lemma exposed_dim_app (level : Z) (l1 l2 : BatchDims) (e : option Z) :
  exposed_dim level (l1 ++ l2) e = exposed_dim level l2 (exposed_dim level l1 e).
Proof.
  revert e. induction l1 as [|b l1 IH]; intros e; simpl; [reflexivity|]. apply IH.
Qed.

Lemma Permutation_filter_same {A : Type} (f : A -> bool) (l l' : list A) :
  Permutation l l' -> Permutation (filter f l) (filter f l').
Proof.
  induction 1 as [| x l l' _ IH | x y l | l l' l'' _ IH1 _ IH2]; simpl.
  - constructor.
  - destruct (f x); [now apply perm_skip | assumption].
  - destruct (f x), (f y); try apply perm_swap; reflexivity.
  - now transitivity (filter f l').
Qed.

(** After [_add_batch_dim] the array has the new level, and has any other
    level exactly when it had it before. *)
Theorem add_batch_dim_has_level (self : Tensor) (batch_dim level : Z) :
  has_level (_add_batch_dim self batch_dim level) level = true
  /\ (forall other, other <> level ->
        has_level (_add_batch_dim self batch_dim level) other = has_level self other).
Proof.
  unfold _add_batch_dim, addBatchDim, makeBatched, push_back, has_level.
  destruct self as [impl | value bdims]; cbn [maybeGetBatched].
  - split.
    + cbn [existsb BatchDim.level]. now rewrite Z.eqb_refl.
    + intros other Hne. cbn [existsb BatchDim.level].
      apply Z.eqb_neq in Hne. rewrite Z.eqb_sym in Hne. now rewrite Hne.
  - split.
    + rewrite existsb_app. cbn [existsb BatchDim.level].
      rewrite Z.eqb_refl. now rewrite !orb_true_r.
    + intros other Hne. rewrite existsb_app. cbn [existsb BatchDim.level].
      apply Z.eqb_neq in Hne. rewrite Z.eqb_sym in Hne. rewrite Hne.
      now rewrite !orb_false_r.
Qed.

(** On an array without the level that is untagged or carries a single
    entry, the Remover stops at one of its two internal assertions. *)
Theorem remove_existing_batch_dim_asserts (self : Tensor) (level : Z) :
  has_level self level = false ->
  (forall value bdims, self = Batched value bdims -> length bdims = 1%nat) ->
  remove_existing_batch_dim self level = Err InternalAssert.
Proof.
  intros Hhas Hone.
  destruct self as [impl | value bdims]; [reflexivity|].
  specialize (Hone value bdims eq_refl).
  destruct bdims as [|b0 [|b1 more]]; try discriminate Hone.
  unfold has_level in Hhas. cbn [maybeGetBatched existsb] in Hhas.
  rewrite orb_false_r in Hhas.
  unfold remove_existing_batch_dim. cbn [maybeGetBatched]. now rewrite Hhas.
Qed.

Lemma remove_existing_batch_dim_asserts_example :
  remove_existing_batch_dim (Regular payload4) 0 = Err InternalAssert
  /\ remove_existing_batch_dim (Batched payload4 [BatchDim.mk 0 1]) 1
     = Err InternalAssert.
Proof.
  split.
  - apply (remove_existing_batch_dim_asserts (Regular payload4) 0).
    + reflexivity.
    + intros value bdims H. discriminate H.
  - apply (remove_existing_batch_dim_asserts (Batched payload4 [BatchDim.mk 0 1]) 1).
    + reflexivity.
    + intros value bdims H. inversion H. reflexivity.
Defined.

(** The array the Remover returns no longer has the level, and has any
    other level exactly when the input had it. *)
Theorem remove_existing_batch_dim_levels (self : Tensor) (level : Z) :
  has_level self level = true ->
  exists t i,
    remove_existing_batch_dim self level = Ok (t, i)
    /\ has_level t level = false
    /\ (forall other, other <> level -> has_level t other = has_level self other).
Proof.
  intros Hhas.
  destruct self as [impl | value bdims]; [discriminate Hhas|].
  assert (Hlen : length bdims = 1%nat \/ length bdims <> 1%nat) by lia.
  destruct Hlen as [Hone | Hmulti].
  - destruct bdims as [|b0 [|b1 more]]; try discriminate Hone.
    unfold has_level in Hhas. cbn [maybeGetBatched existsb] in Hhas.
    rewrite orb_false_r in Hhas.
    exists (Regular value), (BatchDim.dim b0).
    unfold remove_existing_batch_dim. cbn [maybeGetBatched]. rewrite Hhas.
    split; [reflexivity|]. split; [reflexivity|].
    intros other Hne. unfold has_level. cbn [maybeGetBatched existsb].
    apply Z.eqb_eq in Hhas. rewrite Hhas, orb_false_r.
    symmetry. apply Z.eqb_neq. congruence.
  - unfold has_level in Hhas. cbn [maybeGetBatched] in Hhas.
    destruct (exposed_dim_present level bdims None Hhas) as [p Hp].
    rewrite remove_existing_batch_dim_multi by assumption. rewrite Hp.
    eexists. eexists. split; [reflexivity|].
    unfold has_level. cbn [maybeGetBatched]. unfold survivors.
    split.
    + rewrite existsb_filter. apply not_true_iff_false. intros E.
      apply existsb_exists in E. destruct E as [b [_ Hb]].
      destruct (BatchDim.level b =? level); discriminate Hb.
    + intros other Hne. rewrite existsb_filter.
      clear -Hne.
      induction bdims as [|b bdims IH]; [reflexivity|]. cbn [existsb].
      rewrite IH. f_equal.
      destruct (BatchDim.level b =? other) eqn:E; [|now rewrite andb_false_r].
      apply Z.eqb_eq in E. rewrite andb_true_r.
      apply negb_true_iff, Z.eqb_neq. congruence.
Qed.

Lemma remove_existing_batch_dim_levels_example :
  exists t i,
    remove_existing_batch_dim
      (Batched payload4 [BatchDim.mk 0 1; BatchDim.mk 1 3]) 1 = Ok (t, i)
    /\ has_level t 1 = false
    /\ (forall other, other <> 1 ->
          has_level t other
          = has_level (Batched payload4 [BatchDim.mk 0 1; BatchDim.mk 1 3]) other).
Proof.
  apply (remove_existing_batch_dim_levels
           (Batched payload4 [BatchDim.mk 0 1; BatchDim.mk 1 3]) 1).
  reflexivity.
Defined.

(** Tagging an already tagged array with a level it does not have and
    removing that level again gives back the tagged array as it was,
    together with the logical index of the dimension that had been tagged. *)
Theorem add_remove_round_trip_tagged
    (value : TensorImpl) (bdims : BatchDims) (batch_dim level : Z) :
  bdims <> [] ->
  has_level (Batched value bdims) level = false ->
  remove_existing_batch_dim
    (_add_batch_dim (Batched value bdims) batch_dim level) level
  = Ok (Batched value bdims,
        batch_dim - count_if (fun b => BatchDim.dim b <? batch_dim) bdims).
Proof.
  intros Hne Hhas. unfold has_level in Hhas. cbn [maybeGetBatched] in Hhas.
  unfold _add_batch_dim, addBatchDim, makeBatched, push_back.
  rewrite remove_existing_batch_dim_multi.
  2:{ rewrite length_app. simpl length. destruct bdims; [congruence | simpl; lia]. }
  rewrite exposed_dim_app, (exposed_dim_absent level bdims None Hhas).
  cbn [exposed_dim BatchDim.level BatchDim.dim]. rewrite Z.eqb_refl.
  unfold survivors at 1 2. rewrite filter_app. cbn [filter BatchDim.level].
  rewrite Z.eqb_refl. cbn [negb]. rewrite app_nil_r.
  fold (survivors level bdims). now rewrite (survivors_alone level bdims Hhas).
Qed.

Lemma add_remove_round_trip_tagged_example :
  remove_existing_batch_dim
    (_add_batch_dim (Batched payload4 [BatchDim.mk 0 1]) 3 1) 1
  = Ok (Batched payload4 [BatchDim.mk 0 1], 2).
Proof.
  apply (add_remove_round_trip_tagged payload4 [BatchDim.mk 0 1] 3 1).
  - discriminate.
  - reflexivity.
Defined.

(** The logical index the Remover returns does not depend on the order of
    the entries in the tag set. *)
Theorem remove_existing_batch_dim_order_independent
    (value : TensorImpl) (bdims bdims' : BatchDims) (level : Z) :
  Permutation bdims bdims' ->
  unique_levels bdims ->
  has_level (Batched value bdims) level = true ->
  exists t t' i,
    remove_existing_batch_dim (Batched value bdims) level = Ok (t, i)
    /\ remove_existing_batch_dim (Batched value bdims') level = Ok (t', i).
Proof.
  intros Hperm Hlv Hhas.
  destruct (has_level_entry value bdims level Hhas) as [b [Hb Hblv]].
  assert (Hlen : length bdims = 1%nat \/ length bdims <> 1%nat) by lia.
  destruct Hlen as [Hone | Hmulti].
  - destruct bdims as [|b0 [|b1 more]]; try discriminate Hone.
    apply Permutation_length_1_inv in Hperm. subst bdims'.
    destruct Hb as [-> | []].
    exists (Regular value), (Regular value), (BatchDim.dim b).
    unfold remove_existing_batch_dim. cbn [maybeGetBatched].
    apply Z.eqb_eq in Hblv. rewrite Hblv. split; reflexivity.
  - assert (Hmulti' : length bdims' <> 1%nat)
      by (now rewrite <- (Permutation_length Hperm)).
    assert (Hlv' : unique_levels bdims').
    { unfold unique_levels in *.
      apply (Permutation_NoDup (Permutation_map BatchDim.level Hperm) Hlv). }
    assert (Hin : In (BatchDim.mk level (BatchDim.dim b)) bdims)
      by (rewrite <- Hblv; now destruct b).
    assert (Hin' : In (BatchDim.mk level (BatchDim.dim b)) bdims')
      by (now apply (Permutation_in _ Hperm)).
    rewrite !remove_existing_batch_dim_multi by assumption.
    rewrite (exposed_dim_unique level bdims None _ Hlv Hin).
    rewrite (exposed_dim_unique level bdims' None _ Hlv' Hin').
    eexists. eexists. eexists. split; [reflexivity|].
    f_equal. f_equal. f_equal. unfold count_if. f_equal.
    apply Permutation_length, Permutation_filter_same, Permutation_filter_same.
    now apply Permutation_sym.
Qed.

Lemma remove_existing_batch_dim_order_independent_example :
  exists t t' i,
    remove_existing_batch_dim
      (Batched payload4 [BatchDim.mk 0 1; BatchDim.mk 1 3; BatchDim.mk 2 0]) 1
    = Ok (t, i)
    /\ remove_existing_batch_dim
         (Batched payload4 [BatchDim.mk 1 3; BatchDim.mk 0 1; BatchDim.mk 2 0]) 1
       = Ok (t', i).
Proof.
  apply (remove_existing_batch_dim_order_independent
           payload4
           [BatchDim.mk 0 1; BatchDim.mk 1 3; BatchDim.mk 2 0]
           [BatchDim.mk 1 3; BatchDim.mk 0 1; BatchDim.mk 2 0] 1).
  - apply perm_swap.
  - apply distinct_NoDup. reflexivity.
  - reflexivity.
Defined.

(** On the level-present path [out_dim] is normalized against the rank of
    the array that has the exposed dimension: a value outside
    [-(rank+1), rank+1) ends in the range error. *)
Theorem remove_batch_dim_out_dim_range
    (value : TensorImpl) (bdims : BatchDims) (level batch_size out_dim : Z) :
  unique_levels bdims ->
  unique_dims bdims ->
  dims_in_range bdims (length (sizes_ value)) ->
  has_level (Batched value bdims) level = true ->
  ~ (- (Tensor.dim (Batched value bdims) + 1) <= out_dim
     < Tensor.dim (Batched value bdims) + 1) ->
  _remove_batch_dim (Batched value bdims) level batch_size out_dim = Err IndexError.
Proof.
  intros Hlv Hnd Hrange Hhas Hout.
  destruct (remove_existing_batch_dim_result value bdims level Hlv Hnd Hrange Hhas)
    as [b [t' [i [_ [_ [_ [Hrun [_ [_ [Hi Hsizes]]]]]]]]]].
  assert (Hdim : Tensor.dim t' = Tensor.dim (Batched value bdims) + 1).
  { unfold Tensor.dim. rewrite Hsizes, insert_at_length. lia. }
  unfold _remove_batch_dim. rewrite Hhas. cbn [negb]. rewrite Hrun. cbn [bind].
  unfold movedim.
  rewrite (maybe_wrap_dim_fixed i) by (rewrite Hdim; unfold Tensor.dim; lia).
  cbn [bind]. rewrite Hdim. now rewrite maybe_wrap_dim_out_of_range.
Qed.

Lemma remove_batch_dim_out_dim_range_example :
  _remove_batch_dim (Batched payload4 [BatchDim.mk 0 1; BatchDim.mk 1 3]) 1 7 3
  = Err IndexError.
Proof.
  apply (remove_batch_dim_out_dim_range
           payload4 [BatchDim.mk 0 1; BatchDim.mk 1 3] 1 7 3).
  - apply distinct_NoDup. reflexivity.
  - apply distinct_NoDup. reflexivity.
  - unfold dims_in_range. simpl. repeat constructor; simpl; lia.
  - reflexivity.
  - unfold Tensor.dim. simpl. lia.
Defined.

(** When several entries carry the level, the loop drops every one of them
    and keeps the physical dimension of the last: on
    [front ++ (level, p) :: back] with no entry of the level in [back], the
    returned index is [p] minus the surviving entries below [p]. *)
Theorem remove_existing_batch_dim_last_entry_wins
    (value : TensorImpl) (front back : BatchDims) (level p : Z) :
  (2 <= length (front ++ BatchDim.mk level p :: back))%nat ->
  existsb (fun b => BatchDim.level b =? level) back = false ->
  remove_existing_batch_dim
    (Batched value (front ++ BatchDim.mk level p :: back)) level
  = Ok (Batched value (survivors level front ++ back),
        p - count_if (fun b => BatchDim.dim b <? p) (survivors level front ++ back)).
Proof.
  intros Hlen Hback.
  rewrite remove_existing_batch_dim_multi by lia.
  rewrite exposed_dim_app. cbn [exposed_dim BatchDim.level BatchDim.dim].
  rewrite Z.eqb_refl, (exposed_dim_absent level back _ Hback).
  unfold survivors at 1 2. rewrite filter_app. cbn [filter BatchDim.level].
  rewrite Z.eqb_refl. cbn [negb].
  fold (survivors level front). fold (survivors level back).
  now rewrite (survivors_alone level back Hback).
Qed.

Lemma remove_existing_batch_dim_last_entry_wins_example :
  remove_existing_batch_dim
    (Batched payload4 ([BatchDim.mk 1 0] ++ BatchDim.mk 1 3 :: [BatchDim.mk 0 1])) 1
  = Ok (Batched payload4 [BatchDim.mk 0 1], 2).
Proof.
  apply (remove_existing_batch_dim_last_entry_wins
           payload4 [BatchDim.mk 1 0] [BatchDim.mk 0 1] 1 3).
  - simpl. lia.
  - reflexivity.
Defined.

Lemma add_batch_dim_has_level_example :
  has_level (_add_batch_dim (Batched payload4 [BatchDim.mk 0 1]) 3 1) 1 = true
  /\ has_level (_add_batch_dim (Batched payload4 [BatchDim.mk 0 1]) 3 1) 0
     = has_level (Batched payload4 [BatchDim.mk 0 1]) 0.
Proof.
  split.
  - apply (proj1 (add_batch_dim_has_level (Batched payload4 [BatchDim.mk 0 1]) 3 1)).
  - apply (proj2 (add_batch_dim_has_level (Batched payload4 [BatchDim.mk 0 1]) 3 1) 0).
    discriminate.
Defined.
